(** * anchore-engine: the database upgrade runner and the API authorization
      wrapper

    A shallow embedding of
    - [anchore_engine/db/entities/upgrade.py] (module [Upgrade]): the
      version-gated walk over the table of migration steps, run under an
      advisory lock, and
    - [anchore_engine/apis/authorization.py] (module [Authorization]): the
      [requires] decorator of [DbAuthorizationHandler].

    Python code that raises is embedded in a state-and-exception monad: a
    computation maps a world to an outcome (an exception or a value) and
    the world it leaves behind.  Effects done before an exception stay
    done, as in Python. *)

From Stdlib Require Import ZArith NArith Ascii String List Lia.
From stdpp Require Import base option gmap strings list.

Local Open Scope string_scope.

(** ** The state-and-exception monad *)

Section Monad.
Context {W E : Type}.

Definition M (A : Type) : Type := W -> (E + A) * W.

Definition ret {A} (a : A) : M A := fun w => (inr a, w).

Definition raise {A} (e : E) : M A := fun w => (inl e, w).

Definition bind {A B} (m : M A) (k : A -> M B) : M B :=
  fun w => match m w with
           | (inl e, w') => (inl e, w')
           | (inr a, w') => k a w'
           end.

(** [attempt m] runs [m] and hands its outcome to the continuation: the
    building block of [try: ... except ...:] and of [finally]. *)
Definition attempt {A} (m : M A) : M (E + A) :=
  fun w => let (r, w') := m w in (inr r, w').

(** Leave a [try] block with the outcome it produced. *)
Definition resume {A} (r : E + A) : M A :=
  match r with inl e => raise e | inr a => ret a end.

Definition modify (f : W -> W) : M unit := fun w => (inr tt, f w).

Definition gets {A} (f : W -> A) : M A := fun w => (inr (f w), w).
End Monad.

Arguments M : clear implicits.

Notation "'let*' x ':=' c1 'in' c2" := (bind c1 (fun x => c2))
  (at level 10, x name, c1 at level 100, c2 at level 200).
Notation "c1 >> c2" := (bind c1 (fun _ => c2))
  (at level 100, c2 at level 200, right associativity).

(** ** Three-way comparisons

    [distutils.version] compares with [cmp], which on tuples is
    lexicographic.  [TotalCmp] collects what the proofs need from such a
    comparison. *)

Definition lex (c1 c2 : comparison) : comparison :=
  match c1 with Eq => c2 | _ => c1 end.

Class TotalCmp {A : Type} (f : A -> A -> comparison) : Prop := {
  cmp_refl : forall x, f x x = Eq;
  cmp_antisym : forall x y, f y x = CompOpp (f x y);
  cmp_trans_lt : forall x y z, f x y = Lt -> f y z = Lt -> f x z = Lt;
  cmp_eq_compat : forall x y z, f x y = Eq -> f x z = f y z
}.

Definition cmp_pair {A B} (f : A -> A -> comparison) (g : B -> B -> comparison)
    (p q : A * B) : comparison :=
  lex (f (fst p) (fst q)) (g (snd p) (snd q)).

Definition cmp_N : N -> N -> comparison := N.compare.

(** ** Python values and dictionaries *)

(** The values the version dictionaries hold and the upgrade entry points
    return: [None], booleans and strings. *)
Inductive pyval : Type :=
| VNone
| VBool (b : bool)
| VStr (s : string).

#[global] Instance pyval_eq_dec : EqDecision pyval.
Proof. solve_decision. Defined.

(** Python truth value: [None], [False] and the empty string are false. *)
Definition truthy (v : pyval) : bool :=
  match v with
  | VNone => false
  | VBool b => b
  | VStr s => negb (String.eqb s EmptyString)
  end.

(** [str(v)], also what [format] substitutes for a placeholder. *)
Definition py_str (v : pyval) : string :=
  match v with
  | VNone => "None"
  | VBool true => "True"
  | VBool false => "False"
  | VStr s => s
  end.

Abbreviation dict := (gmap string pyval).

(** [d.get(k, None)] *)
Definition dict_get (d : dict) (k : string) : pyval := default VNone (d !! k).

(** ** [distutils.version.StrictVersion]

    The standard-library class the runner compares versions with.  A
    version string matches [^(\d+)\.(\d+)(\.(\d+))?([ab](\d+))?$]; the
    parsed object holds [version], a triple of integers with the patch
    level 0 when absent, and [prerelease], an optional pair of the letter
    and its number. *)
Module StrictVersion.

Record t : Type := mk {
  version : N * N * N;
  prerelease : option (ascii * N)
}.

Definition is_digit (c : ascii) : bool :=
  let n := N_of_ascii c in ((48 <=? n) && (n <=? 57))%N.

(** The longest prefix of digits, and the rest: the greedy [\d+]. *)
Fixpoint span_digits (cs : list ascii) : list ascii * list ascii :=
  match cs with
  | c :: cs' =>
      if is_digit c
      then let (ds, rest) := span_digits cs' in (c :: ds, rest)
      else ([], cs)
  | [] => ([], [])
  end.

(** [int] of a string of decimal digits. *)
Definition atoi (ds : list ascii) : N :=
  fold_left (fun acc c => (10 * acc + (N_of_ascii c - 48))%N) ds 0%N.

(** The optional group [(\.(\d+))?]. *)
Definition opt_patch (cs : list ascii) : option N * list ascii :=
  match cs with
  | "."%char :: cs' =>
      match span_digits cs' with
      | ([], _) => (None, cs)
      | (ds, rest) => (Some (atoi ds), rest)
      end
  | _ => (None, cs)
  end.

(** The optional group [([ab](\d+))?]. *)
Definition opt_prerelease (cs : list ascii)
    : option (ascii * N) * list ascii :=
  match cs with
  | c :: cs' =>
      if (Ascii.eqb c "a" || Ascii.eqb c "b")%bool
      then match span_digits cs' with
           | ([], _) => (None, cs)
           | (ds, rest) => (Some (c, atoi ds), rest)
           end
      else (None, cs)
  | [] => (None, cs)
  end.

(** [$] matches at the end of the string and just before a newline that
    ends it. *)
Definition at_end (cs : list ascii) : bool :=
  match cs with
  | [] => true
  | [c] => Ascii.eqb c "010"
  | _ => false
  end.

(** [StrictVersion.parse]; [None] stands for the [ValueError] of a string
    that does not match. *)
Definition parse (vstring : string) : option t :=
  match span_digits (list_ascii_of_string vstring) with
  | ((_ :: _) as major, "."%char :: r1) =>
      match span_digits r1 with
      | ((_ :: _) as minor, r2) =>
          let (patch, r3) := opt_patch r2 in
          let (pre, r4) := opt_prerelease r3 in
          if at_end r4
          then Some (mk (atoi major, atoi minor, default 0%N patch) pre)
          else None
      | _ => None
      end
  | _ => None
  end.

(** [cmp] on the [version] triples. *)
Definition cmp_version (x y : N * N * N) : comparison :=
  let '(a1, b1, c1) := x in
  let '(a2, b2, c2) := y in
  lex (cmp_N a1 a2) (lex (cmp_N b1 b2) (cmp_N c1 c2)).

(** [cmp] on two [prerelease] pairs: the letters, then the numbers. *)
Definition cmp_prerelease (p q : ascii * N) : comparison :=
  lex (cmp_N (N_of_ascii (fst p)) (N_of_ascii (fst q)))
      (cmp_N (snd p) (snd q)).

(** [StrictVersion.__cmp__]: the numeric triples decide; when they are
    equal a prerelease sorts before the release it precedes. *)
Definition cmp (self other : t) : comparison :=
  match cmp_version (version self) (version other) with
  | Eq =>
      match prerelease self, prerelease other with
      | None, None => Eq
      | Some _, None => Lt
      | None, Some _ => Gt
      | Some p, Some q => cmp_prerelease p q
      end
  | c => c
  end.

Definition gt (x y : t) : bool :=
  match cmp x y with Gt => true | _ => false end.
Definition ge (x y : t) : bool :=
  match cmp x y with Lt => false | _ => true end.
Definition le (x y : t) : bool :=
  match cmp x y with Gt => false | _ => true end.

(** The key under which [cmp] is a plain lexicographic comparison. *)
Definition key (v : t) : N * (N * (N * (N * (N * N)))) :=
  let '(a, b, c) := version v in
  (a, (b, (c, match prerelease v with
              | None => (1, (0, 0))
              | Some (l, n) => (0, (N_of_ascii l, n))
              end)))%N.

Definition cmp_key :=
  cmp_pair cmp_N (cmp_pair cmp_N (cmp_pair cmp_N
    (cmp_pair cmp_N (cmp_pair cmp_N cmp_N)))).

End StrictVersion.

(** ** [anchore_engine/db/entities/upgrade.py] *)
Module Upgrade.

(** Exceptions (instances of [Exception]) that the module raises or that
    reach it from its collaborators. *)
Inductive exn : Type :=
| Exception (msg : string)
| TableNotFoundError (msg : string)
| ValueError (msg : string)
| TypeError (msg : string)
| KeyError (key : string)
| AttributeError (msg : string)
| DriverError (cls msg : string).   (* raised by the database layer *)

(** [str(err)] *)
Definition exn_str (e : exn) : string :=
  match e with
  | Exception msg | TableNotFoundError msg | ValueError msg
  | TypeError msg | AttributeError msg | DriverError _ msg => msg
  | KeyError key => "'" ++ key ++ "'"
  end.

(** What a run does that can be observed from outside, in order. *)
Inductive Event : Type :=
| Lock (key : Z * Z)                         (* advisory lock taken *)
| Unlock (key : Z * Z)                       (* advisory lock released *)
| Get                                        (* [db_anchore.get] *)
| Add (service_version db_version : pyval)   (* [db_anchore.add] *)
| Print (line : string)                      (* a [print] of the runner *)
| Step (db_from db_to : string)              (* line 138: a step is entered *)
| Call (name : string)                       (* lines 141-142: [fn()] *)
| LogException (name : string) (e : exn).    (* line 144 is reached: [fn] raised [e] *)

(** The [anchore] table holding the version record, as [db_anchore.get]
    finds it: reading raises (the table is missing, or another database
    error), or yields the record as a dictionary, empty when the table
    has no row. *)
Inductive VersionTable : Type :=
| Unreadable (err : exn)
| Rows (record : dict).

(** The dictionary [code_versions] that [get_versions] fills from the
    constants of [anchore_engine.version]. *)
Definition code_versions_of (service_version db_version : pyval) : dict :=
  <["db_version" := db_version]> (<["service_version" := service_version]> ∅).

(** What lines 12-19 bind the name [log] to: the module
    [twisted.python.log], when it and [anchore_engine.subsys.logger] can
    be imported, else a logger of the standard library.  The module has
    the functions [msg] and [err], which the migration functions call, and
    no attribute [exception]; the logger has [exception]. *)
Inductive LogBinding : Type :=
| TwistedLog
| StdlibLogger.

Definition upgrade_enabled : bool := true.
Definition upgrade_lock_namespace : Z := 1.
Definition my_module_upgrade_id : Z := 1.

Section Runner.
(** The database apart from the version table: the schema and the data
    the migration functions patch. *)
Context {Ext : Type}.

Record World : Type := mkWorld {
  ext : Ext;
  anchore : VersionTable;
  trace : list Event
}.

(** A migration function of the module, [db_upgrade_001_002] and the
    like: its [__name__] and its effect.  Each one of the source alters
    tables other than [anchore] and may raise after part of its work is
    done. *)
Record MigrationFn : Type := mkFn {
  fn_name : string;
  fn_body : Ext -> option exn * Ext
}.

(** An entry of [upgrade_functions]: [((db_from, db_to), [fn, ...])]. *)
Definition StepEntry : Type := (string * string) * list MigrationFn.

(** The module-level [log]. *)
Variable log : LogBinding.
(** [anchore_engine.db.entities.exceptions.is_table_not_found] *)
Variable is_table_not_found : exn -> bool.
(** [anchore_engine.version.version] and [.db_version] *)
Variable version_version version_db_version : pyval.
(** The module-level table of steps. *)
Variable upgrade_functions : list StepEntry.

Abbreviation M := (M World exn).

Definition emit (ev : Event) : M unit :=
  modify (fun w => mkWorld (ext w) (anchore w) (trace w ++ [ev])).

Definition print (line : string) : M unit := emit (Print line).

(** [d[k]] *)
Definition getitem (d : dict) (k : string) : M pyval :=
  match d !! k with
  | Some v => ret v
  | None => raise (KeyError k)
  end.

(** [StrictVersion(v)].  [Version.__init__] parses its argument only when
    it is true: [None] and the empty string make an object that has no
    [version] and no [prerelease], which is [None] here. *)
Definition StrictVersion_new (v : pyval) : M (option StrictVersion.t) :=
  if truthy v
  then match v with
       | VStr s =>
           match StrictVersion.parse s with
           | Some sv => ret (Some sv)
           | None => raise (ValueError ("invalid version number '" ++ s ++ "'"))
           end
       | _ => raise (TypeError "expected string or buffer")
       end
  else ret None.

(** A comparison of two [StrictVersion] objects: [>], [>=] and [<=] go
    through [__cmp__], which reads [version] of both. *)
Definition StrictVersion_compare
    (op : StrictVersion.t -> StrictVersion.t -> bool)
    (x y : option StrictVersion.t) : M bool :=
  match x, y with
  | Some x, Some y => ret (op x y)
  | _, _ =>
      raise (AttributeError "StrictVersion instance has no attribute 'version'")
  end.

(** Modelled from the spec: [db_anchore.get] under [session_scope],
    the [getRunningVersions] of the version source, which yields the
    persisted record or fails when the table cannot be read. *)
Definition db_anchore_get : M dict :=
  emit Get >>
  let* tbl := gets anchore in
  match tbl with
  | Unreadable err => raise err
  | Rows record => ret record
  end.

(** Modelled from the spec: [db_anchore.add] under [session_scope],
    the [recordVersions(serviceVersion, dbVersion, metadata)] of the
    version store, a single atomic upsert of the version record. *)
Definition db_anchore_add (service_version db_version : pyval)
    (inobj : dict) : M pyval :=
  emit (Add service_version db_version) >>
  let* tbl := gets anchore in
  match tbl with
  | Unreadable err => raise err
  | Rows _ =>
      modify (fun w =>
        mkWorld (ext w)
          (Rows (<["db_version" := db_version]>
                   (<["service_version" := service_version]> inobj)))
          (trace w)) >>
      ret (VBool true)
  end.

(** Modelled from the spec: [db_locks.db_application_lock], a blocking
    acquire of the advisory lock that is released on every exit of the
    [with] block. *)
Definition db_application_lock {A} (key : Z * Z) (body : M A) : M A :=
  emit (Lock key) >>
  let* r := attempt body in
  emit (Unlock key) >>
  resume r.

Definition get_versions : M (dict * dict) :=
  let code_versions := code_versions_of version_version version_db_version in
  let* r := attempt db_anchore_get in
  match r with
  | inl err =>
      if is_table_not_found err
      then raise (TableNotFoundError "anchore table not found")
      else raise (Exception
             ("Cannot find existing/populated anchore DB tables in connected database - has anchore-engine initialized this DB?

DB - exception: " ++ exn_str err))
  | inr db_versions => ret (code_versions, db_versions)
  end.

Definition do_upgrade_success (db_versions code_versions : dict)
    : M pyval :=
  let* sv := getitem code_versions "service_version" in
  let* dv := getitem code_versions "db_version" in
  db_anchore_add sv dv code_versions >>
  ret (VBool true).

(** The generator under [@contextmanager]: the body of the caller's
    [with] block runs at the [yield], inside the lock. *)
Definition upgrade_context {A} (lock_id : Z) (body : dict * dict -> M A)
    : M A :=
  db_application_lock (upgrade_lock_namespace, lock_id)
    (let* versions := get_versions in body versions).

(** Line 144, [log.exception(...)], in the handler of [fn] having raised
    [e].  The trace records that the line is reached; the logger logs and
    returns, and on the module the lookup of [exception] raises. *)
Definition log_exception (name : string) (e : exn) : M unit :=
  emit (LogException name e) >>
  match log with
  | StdlibLogger => ret tt
  | TwistedLog =>
      raise (AttributeError "'module' object has no attribute 'exception'")
  end.

(** Lines 139-145: the functions of one step, in order. *)
Fixpoint run_functions (functions_to_run : list MigrationFn) : M unit :=
  match functions_to_run with
  | [] => ret tt
  | fn :: rest =>
      emit (Call (fn_name fn)) >>
      let* r := attempt (fun w =>
                  let (err, x) := fn_body fn (ext w) in
                  (match err with Some e => inl e | None => inr tt end,
                   mkWorld x (anchore w) (trace w))) in
      match r with
      | inl e => log_exception (fn_name fn) e >> raise e
      | inr _ => run_functions rest
      end
  end.

(** Lines 126-147: the walk over the table; the value is [db_current]
    when the loop is left. *)
Fixpoint upgrade_loop (table : list StepEntry) (db_current db_target : pyval)
    : M pyval :=
  match table with
  | [] => ret db_current
  | ((db_from, db_to), functions_to_run) :: rest =>
      let* cur := StrictVersion_new db_current in
      let* tgt := StrictVersion_new db_target in
      let* reached := StrictVersion_compare StrictVersion.ge cur tgt in
      if reached then ret db_current
      else
        let* to := StrictVersion_new (VStr db_to) in
        let* cur := StrictVersion_new db_current in
        let* behind := StrictVersion_compare StrictVersion.le to cur in
        if behind
        then upgrade_loop rest db_current db_target
        else
          emit (Step db_from db_to) >>
          run_functions functions_to_run >>
          upgrade_loop rest (VStr db_to) db_target
  end.

Definition do_upgrade (inplace incode : dict) : M pyval :=
  let* inplace_db := getitem inplace "db_version" in
  let* v_inplace := StrictVersion_new inplace_db in
  let* incode_db := getitem incode "db_version" in
  let* v_incode := StrictVersion_new incode_db in
  let* downgrade := StrictVersion_compare StrictVersion.gt v_inplace v_incode in
  if downgrade
  then raise (Exception "DB downgrade not supported")
  else
    (if decide (inplace_db <> incode_db)
     then
       print ("Upgrading DB: from=" ++ py_str inplace_db
              ++ " to=" ++ py_str incode_db) >>
       (if upgrade_enabled
        then upgrade_loop upgrade_functions inplace_db incode_db >> ret tt
        else ret tt)
     else ret tt) >>
    let* inplace_sv := getitem inplace "service_version" in
    let* incode_sv := getitem incode "service_version" in
    (if decide (inplace_sv <> incode_sv)
     then print ("upgrading service: from=" ++ py_str inplace_sv
                 ++ " to=" ++ py_str incode_sv)
     else ret tt) >>
    ret (VBool true).

(** The two branches that only print leave the [with] block and the
    function without a [return]: the call evaluates to [None]. *)
Definition run_upgrade : M pyval :=
  upgrade_context my_module_upgrade_id (fun ctx =>
    let code_versions := fst ctx in
    let db_versions := snd ctx in
    let code_db_version := dict_get (fst ctx) "db_version" in
    let running_db_version := dict_get (snd ctx) "db_version" in
    if negb (truthy code_db_version)
    then raise (Exception
           ("cannot code version (code_db_version=" ++ py_str code_db_version
            ++ " running_db_version=" ++ py_str running_db_version ++ ")"))
    else if truthy code_db_version && bool_decide (running_db_version = VNone)
    then
      print "Detected no running db version, indicating db is not initialized but is connected. No upgrade necessary. Exiting normally." >>
      ret VNone
    else if bool_decide (code_db_version = running_db_version)
    then
      print ("Detected anchore-engine version " ++ py_str code_db_version
             ++ " and running DB version " ++ py_str running_db_version
             ++ " match, nothing to do.") >>
      ret VNone
    else
      print ("Detected anchore-engine version " ++ py_str code_db_version
             ++ ", running DB version " ++ py_str running_db_version ++ ".") >>
      print "Performing upgrade." >>
      let* r := attempt (
        let* rc := do_upgrade db_versions code_versions in
        if truthy rc
        then
          let* rc := do_upgrade_success db_versions code_versions in
          print ("Upgrade success: " ++ py_str rc) >>
          ret rc
        else raise (Exception "Upgrade routine from module returned false, please check your DB/environment and try again")) in
      match r with
      | inl err => raise err
      | inr rc => ret rc
      end).

End Runner.

Arguments World : clear implicits.
Arguments MigrationFn : clear implicits.
Arguments StepEntry : clear implicits.

(** *** Vocabulary of the statements *)

(** Version strings compared as the runner compares them, through
    [StrictVersion]; a string that does not parse compares with nothing. *)
Definition vcmp (a b : string) : option comparison :=
  match StrictVersion.parse a, StrictVersion.parse b with
  | Some x, Some y => Some (StrictVersion.cmp x y)
  | _, _ => None
  end.

Definition vltb (a b : string) : bool :=
  match vcmp a b with Some Lt => true | _ => false end.

Definition vleb (a b : string) : bool :=
  match vcmp a b with Some Lt | Some Eq => true | _ => false end.

Definition veqb (a b : string) : bool :=
  match vcmp a b with Some Eq => true | _ => false end.

Definition db_from {Ext} (s : StepEntry Ext) : string := fst (fst s).
Definition db_to {Ext} (s : StepEntry Ext) : string := snd (fst s).

(** A table declared in ascending order: every step goes up, and every
    step ends where a later one starts, or before. *)
Fixpoint ascending {Ext} (table : list (StepEntry Ext)) : bool :=
  match table with
  | [] => true
  | s :: rest =>
      vltb (db_from s) (db_to s)
      && forallb (fun s' => vleb (db_to s) (db_from s')) rest
      && ascending rest
  end.

(** The range of step [s] lies within [a, c). *)
Definition within {Ext} (a c : string) (s : StepEntry Ext) : bool :=
  vleb a (db_from s) && vleb (db_to s) c.


(** Version [a] is not strictly inside the range of step [s]. *)
Definition clear_of {Ext} (a : string) (s : StepEntry Ext) : bool :=
  vleb (db_to s) a || vleb a (db_from s).

(** The world after a stretch of a run that left the rest of the database
    as [x], added the events [t] and did not write the version table. *)
Definition after {Ext} (w : World Ext) (x : Ext) (t : list Event) : World Ext :=
  mkWorld x (anchore w) (trace w ++ t)%list.

(** The steps entered and the functions called, read off a trace. *)
Definition steps_of (t : list Event) : list (string * string) :=
  flat_map (fun ev => match ev with Step f t => [(f, t)] | _ => [] end) t.

Definition calls_of (t : list Event) : list string :=
  flat_map (fun ev => match ev with Call n => [n] | _ => [] end) t.

Definition adds_of (t : list Event) : list (pyval * pyval) :=
  flat_map (fun ev => match ev with Add s d => [(s, d)] | _ => [] end) t.

Definition failures_of (t : list Event) : list (string * exn) :=
  flat_map (fun ev => match ev with LogException n e => [(n, e)] | _ => [] end) t.

(** Events of the walk that goes well: prints, steps entered, calls. *)
Definition progress (ev : Event) : bool :=
  match ev with
  | Print _ | Step _ _ | Call _ => true
  | _ => false
  end.

Definition quiet (t : list Event) : Prop := forallb progress t = true.

(** What the handler of lines 143-145 raises when the function raised
    [e]: [e] itself after it is logged, or the [AttributeError] of
    [log.exception] on the module [twisted.python.log]. *)
Definition handler_raises (log : LogBinding) (e : exn) : exn :=
  match log with
  | StdlibLogger => e
  | TwistedLog => AttributeError "'module' object has no attribute 'exception'"
  end.

(** What the walk over the table leaves in the trace: progress only, or,
    when it raised [e], possibly progress up to a call that raised, with
    line 144 reached last and [e] what the handler raises. *)
Definition walk_outcome {A} (log : LogBinding) (r : exn + A) (t : list Event)
    : Prop :=
  match r with
  | inr _ => quiet t
  | inl e =>
      quiet t \/
      exists t0 name e0,
        t = (t0 ++ [Call name; LogException name e0])%list /\ quiet t0
        /\ e = handler_raises log e0
  end.

(** The version the walk stands at after entering the given steps from
    version [a]: the [db_to] of the last one. *)
Definition reached (a : string) (steps : list (string * string)) : string :=
  default a (last (map snd steps)).

(** The names of the functions of the given steps, in order. *)
Definition names_of {Ext} (table : list (StepEntry Ext)) : list string :=
  flat_map (fun s => map fn_name (snd s)) table.

(** The functions of the given steps, in order. *)
Definition functions_of {Ext} (table : list (StepEntry Ext))
    : list (MigrationFn Ext) :=
  flat_map snd table.

(** The rest of the database after the bodies of the given functions were
    applied to [x] one after the other. *)
Definition run_bodies {Ext} (fns : list (MigrationFn Ext)) (x : Ext) : Ext :=
  fold_left (fun x fn => snd (fn_body fn x)) fns x.

(** A migration function that never raises. *)
Definition succeeds {Ext} (fn : MigrationFn Ext) : Prop :=
  forall x, fst (fn_body fn x) = None.

Definition all_succeed {Ext} (table : list (StepEntry Ext)) : Prop :=
  Forall (fun s => Forall succeeds (snd s)) table.

(** A string of which [StrictVersion.parse] makes nothing. *)
Definition no_version (s : string) : bool :=
  match StrictVersion.parse s with Some _ => false | None => true end.

(** What line 116 raises on the running version [a] and the version [c] of
    the code when one of them is no strict version. *)
Definition malformed_version_error (a c : string) : exn :=
  if negb (String.eqb a EmptyString) && no_version a
  then ValueError ("invalid version number '" ++ a ++ "'")
  else if negb (String.eqb c EmptyString) && no_version c
  then ValueError ("invalid version number '" ++ c ++ "'")
  else AttributeError "StrictVersion instance has no attribute 'version'".

(** Each step entered ends strictly above the version the walk stood at
    when it was entered, starting from [cur]. *)
Fixpoint rising (cur : string) (steps : list (string * string)) : bool :=
  match steps with
  | [] => true
  | (_, db_to) :: rest => vltb cur db_to && rising db_to rest
  end.

(** Each step is entered while the walk stands strictly below the target
    [c], starting from [cur]. *)
Fixpoint short_of (c cur : string) (steps : list (string * string)) : bool :=
  match steps with
  | [] => true
  | (_, db_to) :: rest => vltb cur c && short_of c db_to rest
  end.

(** The takings and releases of the advisory lock in a trace. *)
Definition locks_of (t : list Event) : list Event :=
  List.filter (fun ev => match ev with
                         | Lock _ | Unlock _ => true
                         | _ => false
                         end) t.

(** *** The table of the source

    The bodies of the five migration functions issue [ALTER TABLE]
    statements and data fixes through the engine; they are parameters
    here. *)
Definition upgrade_functions {Ext}
    (db_upgrade_001_002 db_upgrade_002_003 db_upgrade_003_004
     db_upgrade_004_005 db_upgrade_005_006 : Ext -> option exn * Ext)
    : list (StepEntry Ext) :=
  [ (("0.0.1", "0.0.2"), [ mkFn "db_upgrade_001_002" db_upgrade_001_002 ]);
    (("0.0.2", "0.0.3"), [ mkFn "db_upgrade_002_003" db_upgrade_002_003 ]);
    (("0.0.3", "0.0.4"), [ mkFn "db_upgrade_003_004" db_upgrade_003_004 ]);
    (("0.0.4", "0.0.5"), [ mkFn "db_upgrade_004_005" db_upgrade_004_005 ]);
    (("0.0.5", "0.0.6"), [ mkFn "db_upgrade_005_006" db_upgrade_005_006 ]) ].

(** *** A database to run on

    A stand-in for the rest of the database: the journal of the migration
    functions that were applied to it. *)
Definition Journal : Type := list string.

(** A migration function that does its work. *)
Definition applies (name : string) : Journal -> option exn * Journal :=
  fun x => (None, (x ++ [name])%list).

(** A migration function that raises [e] after part of its work. *)
Definition breaks (name : string) (e : exn) : Journal -> option exn * Journal :=
  fun x => (Some e, (x ++ [(name ++ " (in part)")%string])%list).

Definition sample_table : list (StepEntry Journal) :=
  upgrade_functions (applies "001_002") (applies "002_003")
    (applies "003_004") (applies "004_005") (applies "005_006").

(** The table of the source with a step of two functions added, the first
    of which fails. *)
Definition sample_failing_table : list (StepEntry Journal) :=
  [ (("0.0.1", "0.0.2"), [ mkFn "db_upgrade_001_002" (applies "001_002") ]);
    (("0.0.2", "0.0.3"),
     [ mkFn "db_upgrade_002_003"
         (breaks "002_003" (DriverError "OperationalError" "column size is in use"));
       mkFn "db_upgrade_002_003_more" (applies "002_003_more") ]);
    (("0.0.3", "0.0.4"), [ mkFn "db_upgrade_003_004" (applies "003_004") ]) ].

Definition sample_record (service_version db_version : string) : dict :=
  <["db_version" := VStr db_version]>
    (<["service_version" := VStr service_version]> ∅).

Definition sample_world (tbl : VersionTable) : World Journal :=
  mkWorld [] tbl [].

Definition sample_is_table_not_found (e : exn) : bool :=
  match e with
  | DriverError cls _ => String.eqb cls "ProgrammingError"
  | _ => false
  end.

Definition sample_missing_table : VersionTable :=
  Unreadable (DriverError "ProgrammingError" "relation anchore does not exist").

End Upgrade.

(** ** [anchore_engine/apis/authorization.py] *)
Module Authorization.

(** Exceptions by the classes the handlers of [requires] tell apart.  The
    file is Python 3: [except Exception] lets pass what derives from
    [BaseException] only, while a bare [except:] catches that too. *)
Inductive exn : Type :=
| UnauthorizedError (msg : string) (required_permissions : list (list string))
| UnauthenticatedError (msg : string)
| OtherException (cls msg : string)   (* any other instance of [Exception] *)
| BaseOnly (cls : string).            (* [SystemExit], [KeyboardInterrupt], [GeneratorExit] *)

(** [isinstance(e, Exception)] *)
Definition is_Exception (e : exn) : bool :=
  match e with
  | BaseOnly _ => false
  | _ => true
  end.

(** [str(e)] *)
Definition exn_str (e : exn) : string :=
  match e with
  | UnauthorizedError msg _ | UnauthenticatedError msg | OtherException _ msg => msg
  | BaseOnly _ => EmptyString
  end.

(** [s.split(sep)] for a separator of one character. *)
Fixpoint split_on (sep : ascii) (s : string) : list string :=
  match s with
  | EmptyString => [EmptyString]
  | String c rest =>
      if Ascii.eqb c sep then EmptyString :: split_on sep rest
      else match split_on sep rest with
           | hd :: tl => String c hd :: tl
           | [] => [String c EmptyString]
           end
  end.

(** One permission of the message of [UnauthorizedError]; [None] stands
    for the [IndexError] of [perm[1]] on a permission without a colon. *)
Definition perm_text (perm : list string) : option string :=
  match perm with
  | domain :: action :: rest =>
      let target := match rest with [] => "*" | t :: _ => t end in
      Some ("domain=" ++ domain ++ " action=" ++ action ++ " target=" ++ target)
  | _ => None
  end.

Fixpoint perm_texts (perms : list (list string)) : option (list string) :=
  match perms with
  | [] => Some []
  | perm :: rest =>
      match perm_text perm, perm_texts rest with
      | Some t, Some ts => Some (t :: ts)
      | _, _ => None
      end
  end.

(** [UnauthorizedError(required_permissions)] for a list of permission
    strings: the exception the constructor yields, or the one it raises. *)
Definition UnauthorizedError_new (required_permissions : list string) : exn :=
  let perms := map (split_on ":") required_permissions in
  match perm_texts perms with
  | Some texts =>
      UnauthorizedError
        ("Not authorized. Requires permissions: " ++ String.concat "," texts)
        perms
  | None => OtherException "IndexError" "list index out of range"
  end.

(** [IdentityContext], as far as the wrapper reads it. *)
Record IdentityContext : Type := mkIdentity {
  username : option string;
  user_account : option string;
  user_account_type : option string
}.

(** The request behind [request_proxy]: its basic-auth credentials. *)
Record Request : Type := mkRequest {
  authorization : option (string * string)
}.

(** What the endpoint is called with. *)
Abbreviation Kwargs := (gmap string pyval).

(** The outcome of a wrapped endpoint: its own result, or the pair of an
    error body and a status code. *)
Inductive Response (Body R : Type) : Type :=
| Returned (r : R)
| ErrorResponse (body : Body) (status : Z).

Arguments Returned {Body R} r.
Arguments ErrorResponse {Body R} body status.

Section Handler.
(** The state the endpoint and the collaborators work on. *)
Context {Ext : Type}.

Record World : Type := mkWorld {
  ext : Ext;
  yosai_stack : nat;                            (* depth of [global_yosai_context.stack] *)
  subject : option string;                      (* [primary_identifier] of the current subject *)
  context_identity : option IdentityContext;    (* the identity of [ApiRequestContextProxy] *)
  values : gmap nat pyval;                      (* [_value] of each [LazyBoundValue] object *)
  log : list string                             (* [logger.exception] *)
}.

Abbreviation M := (M World exn).

(** The [LazyBoundValue] objects, by the address of the object, whose
    [_value] lives in the world: it is shared by every call of an endpoint
    declared with it. *)
Inductive LazyBoundValue : Type :=
| LazyBound (ref : nat)                                (* the base class: [bind] does nothing *)
| FunctionInjectedValue (ref : nat) (loader : M pyval)
| ParameterBoundValue (ref : nat) (param_name : string).

(** A field of [Permission]: [None], a string or a lazily bound value. *)
Inductive Field : Type :=
| FNone
| FStr (s : string)
| FLazy (v : LazyBoundValue).

Record Permission : Type := mkPermission {
  domain : Field;
  action : Field;
  target : Field
}.

(** The abstract methods of [AuthorizationHandler] that [requires] calls
    on [self]. *)
Class AuthorizationHandler : Type := {
  authenticate : Request -> M (option IdentityContext);
  authorize : IdentityContext -> list string -> M unit
}.

Definition set_ref (v : LazyBoundValue) : nat :=
  match v with
  | LazyBound ref | FunctionInjectedValue ref _ | ParameterBoundValue ref _ => ref
  end.

Definition set_value (ref : nat) (x : pyval) : M unit :=
  modify (fun w => mkWorld (ext w) (yosai_stack w) (subject w)
                     (context_identity w) (<[ref := x]> (values w)) (log w)).

(** The property [value] *)
Definition value (v : LazyBoundValue) : M pyval :=
  gets (fun w => default VNone (values w !! set_ref v)).

(** The method [bind] of the three classes. *)
Definition bind_value (v : LazyBoundValue) (kwargs : Kwargs) : M unit :=
  match v with
  | LazyBound _ => ret tt
  | FunctionInjectedValue ref loader =>
      let* x := loader in set_value ref x
  | ParameterBoundValue ref param_name =>
      if bool_decide (kwargs = ∅) then ret tt
      else set_value ref (default VNone (kwargs !! param_name))
  end.

(** [ApiRequestContextProxy.set_identity] *)
Definition set_identity (i : option IdentityContext) : M unit :=
  modify (fun w => mkWorld (ext w) (yosai_stack w) (subject w) i
                     (values w) (log w)).

(** [logger.exception] *)
Definition logger_exception (msg : string) : M unit :=
  modify (fun w => mkWorld (ext w) (yosai_stack w) (subject w)
                     (context_identity w) (values w) (log w ++ [msg])%list).

(** [with Yosai.context(yosai):] of the yosai library, a generator under
    [@contextmanager] without a [finally]: it pushes the instance, and
    clears the stacks of instances and of subjects when the block ends
    without an exception. *)
Definition Yosai_context {A} (body : M A) : M A :=
  modify (fun w => mkWorld (ext w) (S (yosai_stack w)) (subject w)
                     (context_identity w) (values w) (log w)) >>
  let* a := body in
  modify (fun w => mkWorld (ext w) 0 None
                     (context_identity w) (values w) (log w)) >>
  ret a.

(** [try: body finally: cleanup] *)
Definition try_finally {A} (body : M A) (cleanup : M unit) : M A :=
  let* r := attempt body in
  cleanup >>
  resume r.

(** Lines 224-238 for one field: the default, then [bind] and [value]
    when the field has a [bind]. *)
Definition resolve (fld : Field) (kwargs : Kwargs) : M pyval :=
  match fld with
  | FNone => ret (VStr "*")
  | FStr s => ret (VStr (if String.eqb s EmptyString then "*" else s))
  | FLazy v => bind_value v kwargs >> value v
  end.

(** [type(v).__name__] *)
Definition py_type (v : pyval) : string :=
  match v with
  | VNone => "NoneType"
  | VBool _ => "bool"
  | VStr _ => "str"
  end.

Definition join_error (index : string) (v : pyval) : exn :=
  OtherException "TypeError"
    ("sequence item " ++ index ++ ": expected str instance, "
     ++ py_type v ++ " found").

(** [':'.join([domain, action, target])] *)
Definition join_permission (d a t : pyval) : M string :=
  match d, a, t with
  | VStr d, VStr a, VStr t => ret (d ++ ":" ++ a ++ ":" ++ t)
  | VStr _, VStr _, _ => raise (join_error "2" t)
  | VStr _, _, _ => raise (join_error "1" a)
  | _, _, _ => raise (join_error "0" d)
  end.

(** Lines 220-240: the loop binding the permissions. *)
Fixpoint bind_permissions (permission_s : list Permission) (kwargs : Kwargs)
    : M (list string) :=
  match permission_s with
  | [] => ret []
  | perm :: rest =>
      let* d := resolve (domain perm) kwargs in
      let* a := resolve (action perm) kwargs in
      let* t := resolve (target perm) kwargs in
      let* p := join_permission d a t in
      let* ps := bind_permissions rest kwargs in
      ret (p :: ps)
  end.

Section Requires.
Context {Body R : Type}.
Context `{handler : AuthorizationHandler}.
(** [anchore_engine.common.helpers.make_response_error] *)
Variable make_response_error : string -> Z -> Body.
(** The request of the call, behind [connexion]'s [request_proxy]. *)
Variable request_proxy : Request.

(** Lines 212-217: whatever goes wrong while authenticating, and an
    identity without a user name, end in [UnauthenticatedError]. *)
Definition authenticated : M IdentityContext :=
  let* r := attempt (
    let* identity := authenticate request_proxy in
    match identity with
    | None =>
        raise (OtherException "AttributeError"
                 "'NoneType' object has no attribute 'username'")
    | Some i =>
        match username i with
        | None | Some EmptyString => raise (UnauthenticatedError "Authentication Required")
        | Some _ => ret i
        end
    end) in
  match r with
  | inl _ => raise (UnauthenticatedError "Authentication Required")
  | inr i => ret i
  end.

(** Lines 243-249: errors of the authorization that are not
    [UnauthorizedError] already become one. *)
Definition authorized (identity : IdentityContext)
    (permissions_final : list string) : M unit :=
  let* r := attempt (authorize identity permissions_final) in
  match r with
  | inr _ => ret tt
  | inl (UnauthorizedError msg perms) => raise (UnauthorizedError msg perms)
  | inl e =>
      if is_Exception e
      then logger_exception ("Error doing authz: " ++ exn_str e) >>
           raise (UnauthorizedError_new permissions_final)
      else raise e
  end.

(** Lines 209-254: the block guarded by the handlers of [inner_wrapper]. *)
Definition guarded (permission_s : list Permission)
    (f : list pyval -> Kwargs -> M R) (args : list pyval) (kwargs : Kwargs)
    : M R :=
  Yosai_context (
    try_finally (
      let* identity := authenticated in
      set_identity (Some identity) >>
      let* permissions_final := bind_permissions permission_s kwargs in
      authorized identity permissions_final >>
      f args kwargs)
    (set_identity None)).

(** [requires(permission_s)(f)], that is [inner_wrapper]. *)
Definition requires (permission_s : list Permission)
    (f : list pyval -> Kwargs -> M R) (args : list pyval) (kwargs : Kwargs)
    : M (Response Body R) :=
  let* r := attempt (guarded permission_s f args kwargs) in
  match r with
  | inr result => ret (Returned result)
  | inl (UnauthorizedError msg perms) =>
      ret (ErrorResponse (make_response_error msg 403) 403)
  | inl (UnauthenticatedError _) =>
      ret (ErrorResponse (make_response_error "Unauthorized" 401) 401)
  | inl (OtherException cls msg) =>
      logger_exception ("Unexpected exception: " ++ msg) >>
      ret (ErrorResponse (make_response_error "Internal error" 500) 500)
  | inl (BaseOnly cls) => raise (BaseOnly cls)
  end.

End Requires.

(** *** [DbAuthorizationHandler]

    The calls into the yosai library and the identity provider are
    parameters. *)
Section Db.
(** [subject.login(authc_token)]: sets the subject or raises. *)
Variable login : string -> string -> M unit.
(** [idp.lookup_user(user)] under [session_scope] *)
Variable lookup_user : option string -> M IdentityContext.
(** [subject.check_permission(permission_list, logical_operator=all)] *)
Variable check_permission : list string -> M unit.

Definition Db_authenticate (request : Request) : M (option IdentityContext) :=
  match authorization request with
  | Some (user, password) =>
      login user password >>
      let* user := gets subject in
      let* r := attempt (lookup_user user) in
      match r with
      | inr i => ret (Some i)
      | inl e =>
          logger_exception "Error looking up account for authenticated user" >>
          ret None
      end
  | None => ret (Some (mkIdentity None None None))
  end.

Definition Db_authorize (identity : IdentityContext)
    (permission_list : list string) : M unit :=
  let* primary_identifier := gets subject in
  if bool_decide (primary_identifier <> username identity)
  then raise (UnauthorizedError_new permission_list)
  else
    let* r := attempt (check_permission permission_list) in
    match r with
    | inr _ => ret tt
    | inl (OtherException cls msg) =>
        if (String.eqb cls "ValueError" || String.eqb cls "UnauthorizedException")%bool
        then raise (UnauthorizedError_new permission_list)
        else raise (OtherException cls msg)
    | inl e => raise e
    end.

#[local] Instance DbAuthorizationHandler : AuthorizationHandler := {
  authenticate := Db_authenticate;
  authorize := Db_authorize
}.

End Db.
End Handler.

Arguments World : clear implicits.
Arguments Permission : clear implicits.
Arguments LazyBoundValue : clear implicits.
Arguments Field : clear implicits.
Arguments AuthorizationHandler : clear implicits.

(** *** The handler classes and the configured authorizer

    [load] of the three classes, [init_authz_handler] and
    [get_authorizer].  The yosai library is a parameter: the constructor
    [Yosai(file_path=...)], which reads a settings file and may raise,
    and the assignment that disables the storage of sessions.  The lock
    [_config_lock] is left out: the model has one thread. *)
Inductive HandlerClass : Type :=
| DbAuthorizationHandler_class
| ExternalAuthorizationHandler_class
| InternalServiceAuthorizer_class.

Section Init.
(** The [Yosai] objects. *)
Context {Y : Type}.
(** [pkg_resources.resource_filename(anchore_engine.__name__, path)] *)
Variable resource_filename : string -> string.
(** [Yosai(file_path=conf_path)] *)
Variable Yosai_new : string -> exn + Y.
(** [y.security_manager.subject_store.session_storage_evaluator.session_storage_enabled = False] *)
Variable disable_sessions : Y -> Y.

(** A handler object: its class and its instance attribute [yosai]. *)
Record Handler : Type := mkHandler {
  class : HandlerClass;
  yosai : option Y
}.

(** The class attributes [_yosai], where a class has been assigned one of
    its own, and the module's [_global_authorizer]. *)
Record Globals : Type := mkGlobals {
  Db_yosai : option Y;          (* [DbAuthorizationHandler._yosai], [None] at first *)
  External_yosai : option Y;    (* [ExternalAuthorizationHandler._yosai], once assigned *)
  _global_authorizer : option Handler
}.

Definition Yosai (path : string) : M Globals exn Y :=
  fun g => (Yosai_new (resource_filename path), g).

(** [self._yosai], which [requires] hands to [Yosai.context]: no object
    has the attribute, so it is looked up on the class and then on its
    base [DbAuthorizationHandler]. *)
Definition self_yosai (h : Handler) (g : Globals) : option Y :=
  match class h with
  | ExternalAuthorizationHandler_class =>
      match External_yosai g with
      | Some y => Some y
      | None => Db_yosai g
      end
  | _ => Db_yosai g
  end.

(** [handler.load(configuration)], returning the handler as the call
    leaves it. *)
Definition load (h : Handler) (configuration : dict) : M Globals exn Handler :=
  match class h with
  | DbAuthorizationHandler_class =>
      let* y := Yosai "conf/default_yosai_settings.yaml" in
      modify (fun g => mkGlobals (Some y) (External_yosai g) (_global_authorizer g)) >>
      modify (fun g => mkGlobals (option_map disable_sessions (Db_yosai g))
                         (External_yosai g) (_global_authorizer g)) >>
      ret h
  | ExternalAuthorizationHandler_class =>
      let* y := Yosai "conf/external_authz_yosai_settings.yaml" in
      modify (fun g => mkGlobals (Db_yosai g) (Some y) (_global_authorizer g)) >>
      modify (fun g => mkGlobals (Db_yosai g)
                         (option_map disable_sessions (External_yosai g))
                         (_global_authorizer g)) >>
      ret h
  | InternalServiceAuthorizer_class =>
      let* y := Yosai "conf/internal_authz_yosai_settings.yaml" in
      ret (mkHandler (class h) (Some (disable_sessions y)))
  end.

Definition init_authz_handler (configuration : option dict)
    : M Globals exn unit :=
  match configuration with
  | None =>
      raise (OtherException "AttributeError"
               "'NoneType' object has no attribute 'get'")
  | Some conf =>
      let handler_config := dict_get conf "authorization_handler" in
      let* handler :=
        if (bool_decide (handler_config = VStr "native")
            || bool_decide (handler_config = VNone))%bool
        then ret (mkHandler DbAuthorizationHandler_class None)
        else if bool_decide (handler_config = VStr "external")
        then ret (mkHandler ExternalAuthorizationHandler_class None)
        else raise (OtherException "Exception"
                      ("Unknown authorization handler: " ++ py_str handler_config)) in
      let* handler := load handler conf in
      modify (fun g => mkGlobals (Db_yosai g) (External_yosai g) (Some handler))
  end.

Definition get_authorizer : M Globals exn (option Handler) :=
  gets _global_authorizer.

End Init.

Arguments Handler : clear implicits.
Arguments Globals : clear implicits.

(** *** Vocabulary of the statements *)

(** The world in which the block under [Yosai.context] starts. *)
Definition entered {Ext} (w : World Ext) : World Ext :=
  mkWorld (ext w) (S (yosai_stack w)) (subject w) (context_identity w)
    (values w) (log w).

(** An outcome of [authenticate] that lines 212-217 take for a failure:
    an exception of any kind, [None], or an identity without a user name. *)
Definition authentication_failed (o : exn + option IdentityContext) : bool :=
  match o with
  | inl _ | inr None => true
  | inr (Some i) =>
      match username i with
      | None | Some EmptyString => true
      | Some _ => false
      end
  end.

(** [w] with the identity of the request context cleared. *)
Definition cleared {Ext} (w : World Ext) : World Ext :=
  mkWorld (ext w) (yosai_stack w) (subject w) None (values w) (log w).

(** [w] with the identity of the request context set to [i]. *)
Definition identified {Ext} (i : IdentityContext) (w : World Ext) : World Ext :=
  mkWorld (ext w) (yosai_stack w) (subject w) (Some i) (values w) (log w).

(** [w] after [logger.exception(msg)]. *)
Definition logged {Ext} (msg : string) (w : World Ext) : World Ext :=
  mkWorld (ext w) (yosai_stack w) (subject w) (context_identity w) (values w)
    (log w ++ [msg])%list.

(** [':' in s] *)
Fixpoint has_colon (s : string) : bool :=
  match s with
  | EmptyString => false
  | String c rest => Ascii.eqb c ":" || has_colon rest
  end.

(** A field of [Permission] that is not bound lazily, after the defaults
    of lines 224-226. *)
Definition constant_field {Ext} (fld : Field Ext) : option string :=
  match fld with
  | FNone => Some "*"
  | FStr s => Some (if String.eqb s EmptyString then "*" else s)
  | FLazy _ => None
  end.

(** The permission string of a [Permission] of constant fields. *)
Definition constant_permission {Ext} (perm : Permission Ext) : option string :=
  match constant_field (domain perm), constant_field (action perm),
        constant_field (target perm) with
  | Some d, Some a, Some t => Some (d ++ ":" ++ a ++ ":" ++ t)
  | _, _, _ => None
  end.

(** One permission in the message of [UnauthorizedError]. *)
Definition permission_phrase (p : string * string * string) : string :=
  let '(d, a, t) := p in
  "domain=" ++ d ++ " action=" ++ a ++ " target=" ++ t.

(** The parts of a permission, none of which holds a colon. *)
Definition colon_free (p : string * string * string) : bool :=
  let '(d, a, t) := p in
  (negb (has_colon d) && negb (has_colon a) && negb (has_colon t))%bool.

(** *** A handler to run

    A subject store that accepts one user, an identity provider that knows
    every user, and a permission check that grants everything but the
    action [deleteImage]. *)
Definition sample_login (user password : string) : M (World unit) exn unit :=
  if (String.eqb user "admin" && String.eqb password "foobar")%bool
  then modify (fun w => mkWorld (ext w) (yosai_stack w) (Some user)
                          (context_identity w) (values w) (log w))
  else raise (OtherException "IncorrectCredentialsException" "Failed to authenticate").

Definition sample_lookup_user (user : option string)
    : M (World unit) exn IdentityContext :=
  ret (mkIdentity user (Some "admin") (Some "admin")).

Definition sample_check_permission (permission_list : list string)
    : M (World unit) exn unit :=
  if existsb (String.eqb "account1:deleteImage:*") permission_list
  then raise (OtherException "UnauthorizedException" "not permitted")
  else ret tt.

Definition sample_handler : AuthorizationHandler unit :=
  DbAuthorizationHandler sample_login sample_lookup_user sample_check_permission.

Definition sample_world : World unit := mkWorld tt 0 None None ∅ [].

Definition sample_request : Request := mkRequest (Some ("admin", "foobar")).

Definition sample_permission (action : string) : Permission unit :=
  mkPermission (FStr "account1") (FStr action) FNone.

(** An identity provider that fails, and a permission check that breaks
    down instead of answering. *)
Definition sample_failing_lookup_user (user : option string)
    : M (World unit) exn IdentityContext :=
  raise (OtherException "OperationalError" "connection lost").

Definition sample_broken_check_permission (permission_list : list string)
    : M (World unit) exn unit :=
  raise (OtherException "OperationalError" "connection lost").

(** A permission on the account that the call names. *)
Definition sample_account_permission (action : string) : Permission unit :=
  mkPermission (FLazy (ParameterBoundValue 0 "account")) (FStr action) FNone.

(** An endpoint that returns, one that exits the process, one that fails. *)
Definition sample_endpoint (args : list pyval) (kwargs : Kwargs)
    : M (World unit) exn string := ret "[]".

Definition sample_exiting_endpoint (args : list pyval) (kwargs : Kwargs)
    : M (World unit) exn string := raise (BaseOnly "SystemExit").

Definition sample_failing_endpoint (args : list pyval) (kwargs : Kwargs)
    : M (World unit) exn string := raise (OtherException "KeyError" "'tag'").

(** The error body, as the pair of its message and its code. *)
Definition sample_response_error (msg : string) (httpcode : Z) : string * Z :=
  (msg, httpcode).

End Authorization.

(** * Facts *)

Local Open Scope list_scope.

Lemma cmp_eq_compat_r {A} (f : A -> A -> comparison) `{!TotalCmp f} x y z :
  f y z = Eq -> f x y = f x z.
Proof.
  intros H.
  rewrite (cmp_antisym (f := f) y x), (cmp_antisym (f := f) z x).
  f_equal. rewrite (cmp_antisym (f := f) z y) in H.
  destruct (f z y) eqn:Hzy; simpl in H; try discriminate.
  symmetry. now apply cmp_eq_compat.
Qed.

#[global] Instance cmp_N_total : TotalCmp cmp_N.
Proof.
  unfold cmp_N. split.
  - apply N.compare_refl.
  - intros x y. apply N.compare_antisym.
  - intros x y z. rewrite !N.compare_lt_iff. lia.
  - intros x y z H. apply N.compare_eq in H. now subst.
Qed.

#[global] Instance cmp_pair_total {A B} (f : A -> A -> comparison)
    (g : B -> B -> comparison) `{!TotalCmp f} `{!TotalCmp g} :
  TotalCmp (cmp_pair f g).
Proof.
  split.
  - intros [a b]. unfold cmp_pair; simpl. now rewrite !cmp_refl.
  - intros [a b] [a' b']. unfold cmp_pair; simpl.
    rewrite (cmp_antisym (f := f) a a'), (cmp_antisym (f := g) b b').
    now destruct (f a a').
  - intros [a1 b1] [a2 b2] [a3 b3]. unfold cmp_pair; simpl.
    destruct (f a1 a2) eqn:H12; simpl; try discriminate.
    + rewrite (cmp_eq_compat (f := f) a1 a2 a3 H12).
      destruct (f a2 a3); simpl; try discriminate; auto.
      apply cmp_trans_lt.
    + intros _. destruct (f a2 a3) eqn:H23; simpl; try discriminate.
      * intros _. now rewrite <- (cmp_eq_compat_r f a1 a2 a3 H23), H12.
      * intros _. now rewrite (cmp_trans_lt (f := f) a1 a2 a3 H12 H23).
  - intros [a1 b1] [a2 b2] [a3 b3]. unfold cmp_pair; simpl.
    destruct (f a1 a2) eqn:H12; simpl; try discriminate.
    intros Hg. rewrite (cmp_eq_compat (f := f) a1 a2 a3 H12).
    now rewrite (cmp_eq_compat (f := g) b1 b2 b3 Hg).
Qed.

(** A comparison read through a key function is as good as the comparison
    on the keys. *)
Lemma cmp_on_key_total {A K} (key : A -> K) (f : K -> K -> comparison)
    `{!TotalCmp f} : TotalCmp (fun x y => f (key x) (key y)).
Proof.
  split; intros.
  - apply cmp_refl.
  - apply cmp_antisym.
  - eapply cmp_trans_lt; eauto.
  - now apply cmp_eq_compat.
Qed.

Example parse_0_0_3 :
  StrictVersion.parse "0.0.3" = Some (StrictVersion.mk (0, 0, 3)%N None).
Proof. reflexivity. Qed.

Example parse_two_components :
  StrictVersion.parse "1.10" = Some (StrictVersion.mk (1, 10, 0)%N None).
Proof. reflexivity. Qed.

Example parse_prerelease :
  StrictVersion.parse "1.2.3b12"
  = Some (StrictVersion.mk (1, 2, 3)%N (Some ("b"%char, 12%N))).
Proof. reflexivity. Qed.

Example parse_rejects :
  map StrictVersion.parse ["1"; "1.2.3.4"; "1.2a"; "v1.2"; EmptyString; "1..2"; "1.2.3c1"]
  = [None; None; None; None; None; None; None].
Proof. reflexivity. Qed.


(** ** Consequences of [TotalCmp] *)

Section CmpFacts.
Context {A : Type} (f : A -> A -> comparison) `{!TotalCmp f}.

Lemma cmp_gt_lt x y : f x y = Gt <-> f y x = Lt.
Proof.
  rewrite (cmp_antisym (f := f) x y).
  destruct (f x y); simpl; split; congruence.
Qed.

Lemma cmp_le_lt_trans x y z : f x y <> Gt -> f y z = Lt -> f x z = Lt.
Proof.
  intros Hxy Hyz. destruct (f x y) eqn:E; try congruence.
  - now rewrite (cmp_eq_compat (f := f) x y z E).
  - eapply cmp_trans_lt; eauto.
Qed.

Lemma cmp_lt_le_trans x y z : f x y = Lt -> f y z <> Gt -> f x z = Lt.
Proof.
  intros Hxy Hyz. destruct (f y z) eqn:E; try congruence.
  - now rewrite <- (cmp_eq_compat_r f x y z E).
  - eapply cmp_trans_lt; eauto.
Qed.

Lemma cmp_le_trans x y z : f x y <> Gt -> f y z <> Gt -> f x z <> Gt.
Proof.
  intros Hxy Hyz. destruct (f x y) eqn:E; try congruence.
  - now rewrite (cmp_eq_compat (f := f) x y z E).
  - destruct (f y z) eqn:E'; try congruence.
    + rewrite <- (cmp_eq_compat_r f x y z E'). congruence.
    + rewrite (cmp_trans_lt (f := f) x y z E E'). congruence.
Qed.

End CmpFacts.

(** ** The order of [StrictVersion] *)

Lemma cmp_as_key (v w : StrictVersion.t) :
  StrictVersion.cmp v w
  = StrictVersion.cmp_key (StrictVersion.key v) (StrictVersion.key w).
Proof.
  destruct v as [[[a b] c] p], w as [[[a' b'] c'] q].
  unfold StrictVersion.cmp, StrictVersion.cmp_key, StrictVersion.key,
    StrictVersion.cmp_version, StrictVersion.cmp_prerelease, cmp_pair; simpl.
  destruct (cmp_N a a'); simpl; trivial.
  destruct (cmp_N b b'); simpl; trivial.
  destruct (cmp_N c c'); simpl; trivial.
  destruct p as [[l n]|], q as [[l' n']|]; reflexivity.
Qed.

#[global] Instance StrictVersion_cmp_total : TotalCmp StrictVersion.cmp.
Proof.
  pose proof (cmp_on_key_total StrictVersion.key StrictVersion.cmp_key) as T.
  split; intros; rewrite ?cmp_as_key in *.
  - apply (cmp_refl (TotalCmp := T)).
  - apply (cmp_antisym (TotalCmp := T)).
  - eapply (cmp_trans_lt (TotalCmp := T)); eauto.
  - now apply (cmp_eq_compat (TotalCmp := T)).
Qed.

(** The same order, on version strings that parse. *)
Section VersionStrings.
Import Upgrade.

Lemma vltb_spec a b :
  vltb a b = true <->
  exists x y, StrictVersion.parse a = Some x /\ StrictVersion.parse b = Some y
              /\ StrictVersion.cmp x y = Lt.
Proof.
  unfold vltb, vcmp.
  destruct (StrictVersion.parse a) as [x|], (StrictVersion.parse b) as [y|];
    try (split; [discriminate | intros (? & ? & ? & ? & ?); discriminate]).
  split.
  - intros H. exists x, y. repeat split.
    destruct (StrictVersion.cmp x y); congruence.
  - intros (x' & y' & [= <-] & [= <-] & ->). reflexivity.
Qed.

Lemma vleb_spec a b :
  vleb a b = true <->
  exists x y, StrictVersion.parse a = Some x /\ StrictVersion.parse b = Some y
              /\ StrictVersion.cmp x y <> Gt.
Proof.
  unfold vleb, vcmp.
  destruct (StrictVersion.parse a) as [x|], (StrictVersion.parse b) as [y|];
    try (split; [discriminate | intros (? & ? & ? & ? & ?); discriminate]).
  split.
  - intros H. exists x, y. repeat split.
    destruct (StrictVersion.cmp x y); congruence.
  - intros (x' & y' & [= <-] & [= <-] & H).
    destruct (StrictVersion.cmp x y); congruence.
Qed.

Lemma vltb_vleb a b : vltb a b = true -> vleb a b = true.
Proof.
  rewrite vltb_spec, vleb_spec. intros (x & y & ? & ? & H).
  exists x, y. repeat split; trivial. congruence.
Qed.

Lemma vleb_vltb_trans a b c :
  vleb a b = true -> vltb b c = true -> vltb a c = true.
Proof.
  rewrite vleb_spec, !vltb_spec.
  intros (x & y & Hx & Hy & H1) (y' & z & Hy' & Hz & H2).
  rewrite Hy in Hy'. injection Hy' as <-.
  exists x, z. repeat split; trivial.
  eapply cmp_le_lt_trans; eauto. apply _.
Qed.

Lemma vltb_vleb_trans a b c :
  vltb a b = true -> vleb b c = true -> vltb a c = true.
Proof.
  rewrite vleb_spec, !vltb_spec.
  intros (x & y & Hx & Hy & H1) (y' & z & Hy' & Hz & H2).
  rewrite Hy in Hy'. injection Hy' as <-.
  exists x, z. repeat split; trivial.
  eapply cmp_lt_le_trans; eauto. apply _.
Qed.

Lemma vleb_trans a b c :
  vleb a b = true -> vleb b c = true -> vleb a c = true.
Proof.
  rewrite !vleb_spec.
  intros (x & y & Hx & Hy & H1) (y' & z & Hy' & Hz & H2).
  rewrite Hy in Hy'. injection Hy' as <-.
  exists x, z. repeat split; trivial.
  eapply cmp_le_trans; eauto. apply _.
Qed.

Lemma vltb_not_vleb a b : vltb a b = true -> vleb b a = false.
Proof.
  rewrite vltb_spec. intros (x & y & Hx & Hy & H).
  unfold vleb, vcmp. rewrite Hx, Hy.
  rewrite (cmp_antisym (f := StrictVersion.cmp) x y), H. reflexivity.
Qed.

Lemma vleb_not_vltb a b : vleb a b = true -> vltb b a = false.
Proof.
  intros H. destruct (vltb b a) eqn:E; trivial.
  apply vltb_not_vleb in E. congruence.
Qed.


Lemma vltb_irrefl a : vltb a a = false.
Proof.
  destruct (vltb a a) eqn:E; trivial.
  pose proof (vltb_not_vleb _ _ E) as H.
  apply vltb_vleb in E. congruence.
Qed.

Lemma vleb_not_lt_ge a b : vleb a b = true -> vltb a b = false -> vleb b a = true.
Proof.
  unfold vleb, vltb, vcmp.
  destruct (StrictVersion.parse a) as [x|], (StrictVersion.parse b) as [y|];
    try discriminate.
  rewrite (cmp_antisym (f := StrictVersion.cmp) x y).
  destruct (StrictVersion.cmp x y); simpl; congruence.
Qed.

Lemma veqb_vleb a b : veqb a b = true -> vleb a b = true.
Proof. unfold veqb, vleb. destruct (vcmp a b) as [[]|]; congruence. Qed.

Lemma veqb_vleb_sym a b : veqb a b = true -> vleb b a = true.
Proof.
  unfold veqb, vleb, vcmp.
  destruct (StrictVersion.parse a) as [x|], (StrictVersion.parse b) as [y|];
    try discriminate.
  rewrite (cmp_antisym (f := StrictVersion.cmp) x y).
  destruct (StrictVersion.cmp x y); simpl; congruence.
Qed.


Lemma vltb_parsed_r a b : vltb a b = true -> is_Some (StrictVersion.parse b).
Proof. rewrite vltb_spec. intros (x & y & _ & -> & _). eauto. Qed.


End VersionStrings.

(** Case analysis on the outcome of the call of [do_upgrade] in the goal. *)
Ltac case_do_upgrade H :=
  match goal with
  | |- context [Upgrade.do_upgrade ?l ?a ?b ?c ?d] =>
      destruct (Upgrade.do_upgrade l a b c d) as [[e|rc] w1] eqn:H
  end.

(** ** The upgrade runner *)

Section UpgradeFacts.
Import Upgrade.
Context {Ext : Type}.
Variable log : LogBinding.
Variable is_table_not_found : exn -> bool.
Variable version_version version_db_version : pyval.
Variable table : list (StepEntry Ext).

Local Abbreviation W := (World Ext).
Local Abbreviation run_functions' := (run_functions log).
Local Abbreviation upgrade_loop' := (upgrade_loop log).
Local Abbreviation do_upgrade' := (do_upgrade log table).
Local Abbreviation run_upgrade' :=
  (run_upgrade log is_table_not_found version_version version_db_version table).
Local Abbreviation code_versions := (code_versions_of version_version version_db_version).

Lemma after_after (w : W) x t x' t' :
  after (after w x t) x' t' = after w x' (t ++ t').
Proof. unfold after; simpl. now rewrite <- app_assoc. Qed.

Lemma after_nil (w : W) : after w (ext w) [] = w.
Proof. destruct w. unfold after; simpl. now rewrite app_nil_r. Qed.

Lemma emit_after ev (w : W) : emit ev w = (inr tt, after w (ext w) [ev]).
Proof. reflexivity. Qed.

Lemma quiet_app t1 t2 : quiet t1 -> quiet t2 -> quiet (t1 ++ t2).
Proof. unfold quiet. rewrite forallb_app. now intros -> ->. Qed.

Lemma quiet_no_adds t : quiet t -> adds_of t = [].
Proof.
  unfold quiet. induction t as [|ev t IH]; simpl; trivial.
  intros H. apply andb_prop in H as [H1 H2].
  destruct ev; try discriminate; simpl; auto.
Qed.

Lemma quiet_no_failures t : quiet t -> failures_of t = [].
Proof.
  unfold quiet. induction t as [|ev t IH]; simpl; trivial.
  intros H. apply andb_prop in H as [H1 H2].
  destruct ev; try discriminate; simpl; auto.
Qed.

Lemma quiet_not_logged t name e : quiet t -> ~ In (LogException name e) t.
Proof.
  unfold quiet. rewrite forallb_forall. intros H Hin.
  specialize (H _ Hin). discriminate.
Qed.

Lemma StrictVersion_new_parsed s v (w : W) :
  StrictVersion.parse s = Some v ->
  StrictVersion_new (VStr s) w = (inr (Some v), w).
Proof.
  intros H. unfold StrictVersion_new. rewrite H.
  destruct s; [discriminate|reflexivity].
Qed.

Lemma StrictVersion_compare_pure op x y (w : W) :
  exists r, StrictVersion_compare op x y w = (r, w).
Proof. destruct x, y; eexists; reflexivity. Qed.

(** The constructor on a string: a version, an object without one for the
    empty string, or the [ValueError] of [parse]. *)
Lemma StrictVersion_new_str s (w : W) :
  StrictVersion_new (VStr s) w
  = match StrictVersion.parse s with
    | Some v => (inr (Some v), w)
    | None =>
        if String.eqb s EmptyString then (inr None, w)
        else (inl (ValueError ("invalid version number '" ++ s ++ "'")%string), w)
    end.
Proof.
  unfold StrictVersion_new. destruct s as [|ch s]; [reflexivity|].
  cbv beta iota delta [truthy String.eqb negb].
  now destruct (StrictVersion.parse (String ch s)).
Qed.

Lemma StrictVersion_new_Some s x (w w' : W) :
  StrictVersion_new (VStr s) w = (inr (Some x), w') ->
  StrictVersion.parse s = Some x.
Proof.
  rewrite StrictVersion_new_str.
  destruct (StrictVersion.parse s); [now intros [= ->]|].
  destruct (String.eqb s EmptyString); discriminate.
Qed.

Lemma StrictVersion_compare_inv op x y b (w w' : W) :
  StrictVersion_compare op x y w = (inr b, w') ->
  exists x' y', x = Some x' /\ y = Some y' /\ b = op x' y'.
Proof.
  destruct x as [x'|], y as [y'|]; try discriminate.
  intros [= <- _]. eauto.
Qed.

(** The functions of a step that all succeed: their bodies are applied in
    order. *)
Lemma run_functions_applies fns :
  Forall succeeds fns ->
  forall w : W,
    run_functions' fns w
    = (inr tt,
       after w (run_bodies fns (ext w)) (map (fun fn => Call (fn_name fn)) fns)).
Proof.
  induction 1 as [|fn fns Hfn _ IH]; intros w.
  - simpl. now rewrite after_nil.
  - simpl. unfold bind at 1. rewrite emit_after.
    unfold bind, attempt. simpl.
    specialize (Hfn (ext w)). unfold run_bodies. simpl fold_left.
    destruct (fn_body fn (ext w)) as [err x]. simpl in Hfn. subst err.
    rewrite IH. unfold after; simpl. now rewrite <- app_assoc.
Qed.

(** *** The functions of one step *)


Lemma run_functions_cons fn rest (w : W) :
  run_functions' (fn :: rest) w
  = match fn_body fn (ext w) with
    | (Some e, x) =>
        (inl (handler_raises log e),
         after w x [Call (fn_name fn); LogException (fn_name fn) e])
    | (None, x) => run_functions' rest (after w x [Call (fn_name fn)])
    end.
Proof.
  simpl. cbv [bind attempt emit modify raise ext anchore trace after
              log_exception].
  fold (ext w) (anchore w) (trace w).
  destruct (fn_body fn (ext w)) as [[e|] x]; trivial.
  rewrite <- app_assoc. now destruct log.
Qed.

Lemma run_functions_shape fns :
  forall (w : W) r w',
    run_functions' fns w = (r, w') ->
    exists x t, w' = after w x t /\ walk_outcome log r t.
Proof.
  induction fns as [|fn fns IH]; intros w r w'.
  - intros [= <- <-]. exists (ext w), []. now rewrite after_nil.
  - rewrite run_functions_cons.
    destruct (fn_body fn (ext w)) as [[e|] x].
    + intros [= <- <-]. eexists x, _. split; [reflexivity|].
      right. exists [], (fn_name fn), e. now repeat split.
    + intros H. apply IH in H as (x' & t & -> & Ht).
      rewrite after_after. eexists x', _. split; [reflexivity|].
      destruct r as [e|[]]; simpl in *; trivial.
      destruct Ht as [Ht | (t0 & name & e0 & -> & Ht0 & He)]; [now left|].
      right. exists (Call (fn_name fn) :: t0), name, e0. now repeat split.
Qed.

(** *** The walk over the table *)

Lemma StrictVersion_new_pure v (w : W) :
  exists r, StrictVersion_new v w = (r, w).
Proof.
  unfold StrictVersion_new.
  destruct (truthy v); [|eexists; reflexivity].
  destruct v as [| |s]; try (eexists; reflexivity).
  destruct (StrictVersion.parse s); eexists; reflexivity.
Qed.

Lemma walk_outcome_step {A} (r : exn + A) db_from db_to t :
  walk_outcome log r t -> walk_outcome log r (Step db_from db_to :: t).
Proof.
  destruct r as [e|a]; simpl; trivial.
  intros [Ht | (t0 & name & e0 & -> & Ht0 & He)]; [now left|].
  right. exists (Step db_from db_to :: t0), name, e0. now repeat split.
Qed.

Lemma walk_outcome_app {A B} (r : exn + A) (b : B) t1 t2 :
  walk_outcome log (inr b : exn + B) t1 -> walk_outcome log r t2 ->
  walk_outcome log r (t1 ++ t2).
Proof.
  simpl. intros H1. destruct r as [e|a]; simpl.
  - intros [Ht | (t0 & name & e0 & -> & Ht0 & He)].
    + left. now apply quiet_app.
    + right. exists (t1 ++ t0), name, e0. rewrite <- app_assoc.
      repeat split; trivial. now apply quiet_app.
  - now apply quiet_app.
Qed.

Lemma upgrade_loop_cons db_from db_to fns steps db_current db_target :
  upgrade_loop' (((db_from, db_to), fns) :: steps) db_current db_target
  = (let* cur := StrictVersion_new db_current in
     let* tgt := StrictVersion_new db_target in
     let* reached := StrictVersion_compare StrictVersion.ge cur tgt in
     if reached then ret db_current
     else
       let* to := StrictVersion_new (VStr db_to) in
       let* cur := StrictVersion_new db_current in
       let* behind := StrictVersion_compare StrictVersion.le to cur in
       if behind
       then upgrade_loop' steps db_current db_target
       else
         emit (Step db_from db_to) >>
         run_functions' fns >>
         upgrade_loop' steps (VStr db_to) db_target : M W exn pyval).
Proof. reflexivity. Qed.

Lemma upgrade_loop_shape steps :
  forall db_current db_target (w : W) r w',
    upgrade_loop' steps db_current db_target w = (r, w') ->
    exists x t, w' = after w x t /\ walk_outcome log r t.
Proof.
  induction steps as [|[[db_from db_to] fns] steps IH];
    intros db_current db_target w r w'.
  - intros [= <- <-]. exists (ext w), []. now rewrite after_nil.
  - rewrite upgrade_loop_cons. unfold bind at 1.
    destruct (StrictVersion_new_pure db_current w) as [[e|cur] ->].
    { intros [= <- <-]. exists (ext w), []. rewrite after_nil. split; [|left]; reflexivity. }
    unfold bind at 1.
    destruct (StrictVersion_new_pure db_target w) as [[e|tgt] ->].
    { intros [= <- <-]. exists (ext w), []. rewrite after_nil. split; [|left]; reflexivity. }
    unfold bind at 1.
    destruct (StrictVersion_compare_pure StrictVersion.ge cur tgt w)
      as [[e|reached] ->].
    { intros [= <- <-]. exists (ext w), []. rewrite after_nil. split; [|left]; reflexivity. }
    destruct reached.
    { intros [= <- <-]. exists (ext w), []. now rewrite after_nil. }
    unfold bind at 1.
    destruct (StrictVersion_new_pure (VStr db_to) w) as [[e|to] ->].
    { intros [= <- <-]. exists (ext w), []. rewrite after_nil. split; [|left]; reflexivity. }
    unfold bind at 1.
    destruct (StrictVersion_new_pure db_current w) as [[e|cur'] ->].
    { intros [= <- <-]. exists (ext w), []. rewrite after_nil. split; [|left]; reflexivity. }
    unfold bind at 1.
    destruct (StrictVersion_compare_pure StrictVersion.le to cur' w)
      as [[e|behind] ->].
    { intros [= <- <-]. exists (ext w), []. rewrite after_nil. split; [|left]; reflexivity. }
    destruct behind.
    { apply IH. }
    unfold bind at 1. rewrite emit_after.
    unfold bind at 1.
    destruct (run_functions' fns (after w (ext w) [Step db_from db_to]))
      as [[e|[]] w1] eqn:Hfns;
      apply run_functions_shape in Hfns as (x1 & t1 & -> & Ht1).
    + intros [= <- <-]. rewrite after_after.
      eexists _, _. split; [reflexivity|]. now apply walk_outcome_step.
    + intros H. apply IH in H as (x2 & t2 & -> & Ht2).
      rewrite !after_after. eexists _, _. split; [reflexivity|].
      apply walk_outcome_step. eapply walk_outcome_app; eauto.
Qed.

(** One turn of the loop on version strings that parse. *)
Lemma upgrade_loop_turn db_from db_to fns steps cur c (w : W) :
  vleb cur c = true ->
  is_Some (StrictVersion.parse db_to) ->
  upgrade_loop' (((db_from, db_to), fns) :: steps) (VStr cur) (VStr c) w
  = if vltb cur c
    then if vleb db_to cur
         then upgrade_loop' steps (VStr cur) (VStr c) w
         else (emit (Step db_from db_to) >>
               run_functions' fns >>
               upgrade_loop' steps (VStr db_to) (VStr c)) w
    else (inr (VStr cur), w).
Proof.
  intros Hle [to Hto].
  apply vleb_spec in Hle as (x & y & Hx & Hy & _).
  rewrite upgrade_loop_cons. unfold bind at 1. rewrite (StrictVersion_new_parsed _ _ _ Hx).
  unfold bind at 1. rewrite (StrictVersion_new_parsed _ _ _ Hy).
  unfold bind at 1, StrictVersion_compare at 1, ret at 1.
  unfold vltb, vleb, vcmp, StrictVersion.ge, StrictVersion.le.
  rewrite Hx, Hy, Hto.
  destruct (StrictVersion.cmp x y); trivial.
  unfold bind at 1. rewrite (StrictVersion_new_parsed _ _ _ Hto).
  unfold bind at 1. rewrite (StrictVersion_new_parsed _ _ _ Hx).
  unfold bind at 1, StrictVersion_compare at 1, ret at 1.
  destruct (StrictVersion.cmp to x); reflexivity.
Qed.

(** *** Tables in ascending order *)

Lemma ascending_cons (s : StepEntry Ext) steps :
  ascending (s :: steps) = true ->
  vltb (db_from s) (db_to s) = true
  /\ (forall s', In s' steps -> vleb (db_to s) (db_from s') = true)
  /\ ascending steps = true.
Proof.
  simpl. intros H.
  apply andb_prop in H as [H H3]. apply andb_prop in H as [H1 H2].
  rewrite forallb_forall in H2. auto.
Qed.

Lemma ascending_up (steps : list (StepEntry Ext)) s :
  ascending steps = true -> In s steps -> vltb (db_from s) (db_to s) = true.
Proof.
  induction steps as [|s0 steps IH]; simpl; [tauto|].
  intros H [<-|Hin].
  - apply andb_prop in H as [H _]. now apply andb_prop in H as [H _].
  - apply andb_prop in H as [_ H]. auto.
Qed.

(** When the cursor has passed the target, no range lies between them. *)
Lemma none_within_passed (steps : list (StepEntry Ext)) cur c :
  ascending steps = true -> vleb c cur = true ->
  List.filter (within cur c) steps = [].
Proof.
  intros Hasc Hpassed.
  induction steps as [|s steps IH]; trivial.
  apply ascending_cons in Hasc as (Hup & _ & Hasc).
  simpl. rewrite (IH Hasc).
  destruct (within cur c s) eqn:E; trivial.
  unfold within in E. apply andb_prop in E as [E1 E2].
  pose proof (vleb_vltb_trans _ _ _ E1 Hup) as H.
  pose proof (vltb_vleb_trans _ _ _ H E2) as H'.
  pose proof (vltb_vleb_trans _ _ _ H' Hpassed) as H''.
  now rewrite vltb_irrefl in H''.
Qed.

Lemma steps_of_app t1 t2 : steps_of (t1 ++ t2) = steps_of t1 ++ steps_of t2.
Proof. unfold steps_of. now rewrite flat_map_app. Qed.

Lemma calls_of_app t1 t2 : calls_of (t1 ++ t2) = calls_of t1 ++ calls_of t2.
Proof. unfold calls_of. now rewrite flat_map_app. Qed.

Lemma adds_of_app t1 t2 : adds_of (t1 ++ t2) = adds_of t1 ++ adds_of t2.
Proof. unfold adds_of. now rewrite flat_map_app. Qed.

Lemma failures_of_app t1 t2 :
  failures_of (t1 ++ t2) = failures_of t1 ++ failures_of t2.
Proof. unfold failures_of. now rewrite flat_map_app. Qed.

Lemma steps_of_calls (fns : list (MigrationFn Ext)) :
  steps_of (map (fun fn => Call (fn_name fn)) fns) = [].
Proof. induction fns; simpl; auto. Qed.

Lemma calls_of_calls (fns : list (MigrationFn Ext)) :
  calls_of (map (fun fn => Call (fn_name fn)) fns) = map fn_name fns.
Proof. induction fns; simpl; f_equal; auto. Qed.

Lemma quiet_calls (fns : list (MigrationFn Ext)) :
  quiet (map (fun fn => Call (fn_name fn)) fns).
Proof. unfold quiet. induction fns; simpl; auto. Qed.

(** The walk from a cursor that no step straddles, towards a target that
    is the end of a step unless it is reached already: the steps entered
    are those whose range lies between the cursor and the target. *)
Lemma upgrade_loop_within steps :
  all_succeed steps -> ascending steps = true ->
  forall cur c (w : W),
    vleb cur c = true ->
    forallb (clear_of cur) steps = true ->
    (vltb cur c = true -> existsb (fun s => veqb (db_to s) c) steps = true) ->
    exists cur' t,
      upgrade_loop' steps (VStr cur) (VStr c) w
      = (inr cur',
         after w (run_bodies (functions_of (List.filter (within cur c) steps))
                    (ext w)) t)
      /\ steps_of t = map fst (List.filter (within cur c) steps)
      /\ calls_of t = names_of (List.filter (within cur c) steps)
      /\ quiet t.
Proof.
  induction 1 as [|s steps Hfns Hall IH]; intros Hasc cur c w Hle Hclear Hend.
  - exists (VStr cur), []. simpl. rewrite after_nil. now repeat split.
  - pose proof Hasc as Hasc0.
    apply ascending_cons in Hasc as (Hup & Hnext & Hasc).
    destruct s as [[db_from db_to] fns].
    unfold Upgrade.db_from, Upgrade.db_to in Hup, Hnext.
    simpl in Hup, Hnext, Hfns.
    rewrite upgrade_loop_turn; eauto using vltb_parsed_r.
    destruct (vltb cur c) eqn:Hlt.
    2:{ exists (VStr cur), [].
        rewrite none_within_passed; auto using vleb_not_lt_ge.
        simpl. rewrite after_nil. now repeat split. }
    specialize (Hend eq_refl). simpl in Hend, Hclear.
    apply andb_prop in Hclear as [Hclear_s Hclear].
    unfold clear_of, Upgrade.db_from, Upgrade.db_to in Hclear_s, Hend.
    simpl in Hclear_s, Hend.
    destruct (vleb db_to cur) eqn:Hskip.
    + (* the step is behind the cursor *)
      assert (Hout : within cur c ((db_from, db_to, fns) : StepEntry Ext) = false).
      { unfold within, Upgrade.db_from, Upgrade.db_to; simpl.
        destruct (vleb cur db_from) eqn:E; trivial.
        pose proof (vleb_vltb_trans _ _ _ E Hup) as H1.
        pose proof (vltb_vleb_trans _ _ _ H1 Hskip) as H2.
        now rewrite vltb_irrefl in H2. }
      simpl List.filter. rewrite Hout.
      apply IH; auto.
      intros _. apply orb_prop in Hend as [Hend|Hend]; trivial.
      apply veqb_vleb_sym in Hend.
      pose proof (vltb_vleb_trans _ _ _ Hlt Hend) as H1.
      pose proof (vltb_vleb_trans _ _ _ H1 Hskip) as H2.
      now rewrite vltb_irrefl in H2.
    + (* the step is run *)
      simpl in Hclear_s.
      assert (Hto : vleb db_to c = true).
      { apply orb_prop in Hend as [Hend|Hend].
        - now apply veqb_vleb.
        - apply existsb_exists in Hend as (m & Hm & Hmc).
          apply veqb_vleb in Hmc.
          eapply vleb_trans; [apply (Hnext _ Hm)|].
          eapply vleb_trans; [|apply Hmc].
          apply vltb_vleb. apply (ascending_up steps m Hasc Hm). }
      assert (Hin : within cur c ((db_from, db_to, fns) : StepEntry Ext) = true).
      { unfold within, Upgrade.db_from, Upgrade.db_to; simpl.
        now rewrite Hclear_s, Hto. }
      simpl List.filter. rewrite Hin.
      assert (Hsame : List.filter (within cur c) steps
                      = List.filter (within db_to c) steps).
      { apply filter_ext_in. intros s' Hs'.
        unfold within, Upgrade.db_from, Upgrade.db_to.
        rewrite (Hnext _ Hs').
        replace (vleb cur (fst (fst s'))) with true; trivial.
        symmetry. eapply vleb_trans; [|apply (Hnext _ Hs')].
        apply vltb_vleb. eapply vleb_vltb_trans; eauto. }
      unfold bind at 1. rewrite emit_after.
      unfold bind at 1.
      rewrite (run_functions_applies fns Hfns). simpl ext.
      rewrite after_after.
      destruct (IH Hasc db_to c
                  (after w (run_bodies fns (ext w))
                     ([Step db_from db_to]
                      ++ map (fun fn => Call (fn_name fn)) fns)))
        as (cur' & t2 & -> & Hsteps & Hcalls & Hquiet); auto.
      { rewrite forallb_forall. intros s' Hs'.
        unfold clear_of, Upgrade.db_from, Upgrade.db_to.
        rewrite (Hnext _ Hs'). apply orb_true_r. }
      { intros Hlt'. apply orb_prop in Hend as [Hend|Hend]; trivial.
        apply veqb_vleb_sym in Hend.
        pose proof (vltb_vleb_trans _ _ _ Hlt' Hend) as H2.
        now rewrite vltb_irrefl in H2. }
      rewrite after_after. simpl ext.
      exists cur',
        (([Step db_from db_to] ++ map (fun fn => Call (fn_name fn)) fns) ++ t2).
      split.
      { unfold functions_of, run_bodies. simpl flat_map.
        now rewrite fold_left_app, Hsame. }
      rewrite !steps_of_app, !calls_of_app, steps_of_calls, calls_of_calls.
      rewrite Hsteps, Hcalls, Hsame. simpl. repeat split.
      apply quiet_app; trivial. unfold quiet; simpl. apply quiet_calls.
Qed.

(** *** [do_upgrade] *)

Lemma getitem_pure (d : dict) k (w : W) :
  getitem d k w
  = (match d !! k with Some v => inr v | None => inl (KeyError k) end, w).
Proof. unfold getitem. now destruct (d !! k). Qed.

(** Whatever [do_upgrade] is given, it leaves the version table alone, its
    trace is that of a walk, and the only value it returns is [True]. *)
Lemma do_upgrade_shape inplace incode (w : W) r w' :
  do_upgrade' inplace incode w = (r, w') ->
  exists x t, w' = after w x t /\ walk_outcome log r t
              /\ (forall v, r = inr v -> v = VBool true).
Proof.
  assert (Hstop : forall e : exn,
    exists x t, w = after w x t /\ walk_outcome log (inl e : exn + pyval) t
                /\ (forall v, (inl e : exn + pyval) = inr v -> v = VBool true)).
  { intros e. exists (ext w), []. rewrite after_nil.
    split; [reflexivity|]. split; [now left|discriminate]. }
  unfold do_upgrade.
  unfold bind at 1. rewrite getitem_pure.
  destruct (inplace !! "db_version"%string) as [inplace_db|];
    [|intros [= <- <-]; apply Hstop].
  unfold bind at 1.
  destruct (StrictVersion_new_pure inplace_db w) as [[e|v_inplace] ->];
    [intros [= <- <-]; apply Hstop|].
  unfold bind at 1. rewrite getitem_pure.
  destruct (incode !! "db_version"%string) as [incode_db|];
    [|intros [= <- <-]; apply Hstop].
  unfold bind at 1.
  destruct (StrictVersion_new_pure incode_db w) as [[e|v_incode] ->];
    [intros [= <- <-]; apply Hstop|].
  unfold bind at 1.
  destruct (StrictVersion_compare_pure StrictVersion.gt v_inplace v_incode w)
    as [[e|downgrade] ->];
    [intros [= <- <-]; apply Hstop|].
  destruct downgrade; [intros [= <- <-]; apply Hstop|].
  clear Hstop.
  unfold bind at 1.
  (* lines 119-147 *)
  assert (Hwalk : exists r1 x1 t1,
    (if decide (inplace_db <> incode_db)
     then print ("Upgrading DB: from=" ++ py_str inplace_db
                 ++ " to=" ++ py_str incode_db)%string >>
          (if upgrade_enabled
           then upgrade_loop' table inplace_db incode_db >> ret tt
           else ret tt)
     else ret tt) w = (r1, after w x1 t1) /\ walk_outcome log r1 t1).
  { destruct (decide (inplace_db <> incode_db)).
    - unfold bind at 1, print. rewrite emit_after.
      change upgrade_enabled with true. cbv beta iota.
      unfold bind at 1.
      match goal with
      | |- context [upgrade_loop' ?a ?b ?c ?d] =>
          destruct (upgrade_loop' a b c d) as [[e|cur] w1] eqn:Hloop
      end;
        apply upgrade_loop_shape in Hloop as (x1 & t1 & -> & Ht1);
        rewrite after_after; eexists _, _, _; (split; [reflexivity|]).
      + destruct Ht1 as [Ht1 | (t0 & name & e0 & -> & Ht0 & He)]; [now left|].
        right. exists (Print ("Upgrading DB: from=" ++ py_str inplace_db
                 ++ " to=" ++ py_str incode_db)%string :: t0), name, e0.
        now repeat split.
      + exact Ht1.
    - exists (inr tt), (ext w), []. now rewrite after_nil. }
  destruct Hwalk as (r1 & x1 & t1 & -> & Ht1).
  destruct r1 as [e|[]].
  { intros [= <- <-]. eexists _, _. split; [reflexivity|]. split; [trivial|discriminate]. }
  unfold bind at 1. rewrite getitem_pure.
  destruct (inplace !! "service_version"%string) as [inplace_sv|].
  2:{ intros [= <- <-]. eexists _, _. split; [reflexivity|].
      split; [now left|discriminate]. }
  unfold bind at 1. rewrite getitem_pure.
  destruct (incode !! "service_version"%string) as [incode_sv|].
  2:{ intros [= <- <-]. eexists _, _. split; [reflexivity|].
      split; [now left|discriminate]. }
  unfold bind at 1.
  destruct (decide (inplace_sv <> incode_sv)).
  - unfold print. rewrite emit_after. unfold ret. intros [= <- <-].
    rewrite after_after. eexists _, _. split; [reflexivity|].
    split; [|now intros v [= <-]].
    simpl. apply quiet_app; [exact Ht1|reflexivity].
  - unfold ret. intros [= <- <-]. eexists _, _. split; [reflexivity|].
    split; [exact Ht1|now intros v [= <-]].
Qed.

(** [do_upgrade] from a version strictly below the target: the walk, framed
    by the two prints. *)
Lemma do_upgrade_upward inplace incode a c sv sv' (w : W) :
  inplace !! "db_version"%string = Some (VStr a) ->
  incode !! "db_version"%string = Some (VStr c) ->
  inplace !! "service_version"%string = Some sv ->
  incode !! "service_version"%string = Some sv' ->
  vltb a c = true ->
  do_upgrade' inplace incode w
  = match upgrade_loop' table (VStr a) (VStr c)
            (after w (ext w)
               [Print ("Upgrading DB: from=" ++ a ++ " to=" ++ c)%string]) with
    | (inl e, w1) => (inl e, w1)
    | (inr _, w1) =>
        (inr (VBool true),
         if decide (sv <> sv')
         then after w1 (ext w1)
                [Print ("upgrading service: from=" ++ py_str sv
                        ++ " to=" ++ py_str sv')%string]
         else w1)
    end.
Proof.
  intros Ha Hc Hsv Hsv' Hlt.
  assert (Hne : VStr a <> VStr c).
  { intros [= ->]. now rewrite vltb_irrefl in Hlt. }
  apply vltb_spec in Hlt as (x & y & Hx & Hy & Hxy).
  unfold do_upgrade.
  unfold bind at 1. rewrite getitem_pure, Ha.
  unfold bind at 1. rewrite (StrictVersion_new_parsed _ _ _ Hx).
  unfold bind at 1. rewrite getitem_pure, Hc.
  unfold bind at 1. rewrite (StrictVersion_new_parsed _ _ _ Hy).
  unfold bind at 1, StrictVersion_compare at 1, ret at 1.
  unfold StrictVersion.gt. rewrite Hxy.
  destruct (decide (VStr a <> VStr c)) as [_|]; [|contradiction].
  change upgrade_enabled with true. cbv beta iota.
  unfold bind at 1. unfold bind at 1. unfold print. rewrite emit_after.
  unfold bind at 1. simpl py_str.
  destruct (upgrade_loop' table (VStr a) (VStr c) _) as [[e|cur] w1]; trivial.
  unfold ret at 1.
  unfold bind at 1. rewrite getitem_pure, Hsv.
  unfold bind at 1. rewrite getitem_pure, Hsv'.
  unfold bind at 1.
  destruct (decide (sv <> sv')); reflexivity.
Qed.

(** *** [run_upgrade] *)

Lemma code_versions_db_version :
  dict_get code_versions "db_version" = version_db_version.
Proof. unfold dict_get, code_versions_of. now rewrite lookup_insert_eq. Qed.

Lemma code_versions_lookup_db :
  code_versions !! "db_version"%string = Some version_db_version.
Proof. unfold code_versions_of. now rewrite lookup_insert_eq. Qed.

Lemma code_versions_lookup_service :
  code_versions !! "service_version"%string = Some version_version.
Proof.
  unfold code_versions_of.
  rewrite lookup_insert_ne by discriminate. now rewrite lookup_insert_eq.
Qed.

Lemma code_versions_upsert :
  <["db_version"%string := version_db_version]>
    (<["service_version"%string := version_version]> code_versions)
  = code_versions.
Proof.
  rewrite (insert_id code_versions "service_version"%string)
    by apply code_versions_lookup_service.
  apply insert_id, code_versions_lookup_db.
Qed.

Lemma do_upgrade_success_writes db_versions old (w : W) :
  anchore w = Rows old ->
  do_upgrade_success db_versions code_versions w
  = (inr (VBool true),
     mkWorld (ext w) (Rows code_versions)
       (trace w ++ [Add version_version version_db_version])).
Proof.
  intros Htbl. unfold do_upgrade_success.
  unfold bind at 1. rewrite getitem_pure, code_versions_lookup_service.
  unfold bind at 1. rewrite getitem_pure, code_versions_lookup_db.
  cbv [db_anchore_add bind emit modify gets raise ret ext anchore trace].
  fold (anchore w). rewrite Htbl.
  fold code_versions. rewrite code_versions_upsert. reflexivity.
Qed.

Abbreviation key := (upgrade_lock_namespace, my_module_upgrade_id).

(** The whole of [run_upgrade], path by path. *)
Lemma run_upgrade_paths (w : W) :
  run_upgrade' w
  = match anchore w with
    | Unreadable err =>
        (inl (if is_table_not_found err
              then TableNotFoundError "anchore table not found"
              else Exception
                     ("Cannot find existing/populated anchore DB tables in connected database - has anchore-engine initialized this DB?

DB - exception: " ++ exn_str err)%string),
         after w (ext w) [Lock key; Get; Unlock key])
    | Rows record =>
        let running_db_version := dict_get record "db_version" in
        if negb (truthy version_db_version)
        then (inl (Exception
                     ("cannot code version (code_db_version="
                      ++ py_str version_db_version
                      ++ " running_db_version="
                      ++ py_str running_db_version ++ ")")%string),
              after w (ext w) [Lock key; Get; Unlock key])
        else if bool_decide (running_db_version = VNone)
        then (inr VNone,
              after w (ext w)
                [Lock key; Get;
                 Print "Detected no running db version, indicating db is not initialized but is connected. No upgrade necessary. Exiting normally.";
                 Unlock key])
        else if bool_decide (version_db_version = running_db_version)
        then (inr VNone,
              after w (ext w)
                [Lock key; Get;
                 Print ("Detected anchore-engine version "
                        ++ py_str version_db_version
                        ++ " and running DB version "
                        ++ py_str running_db_version
                        ++ " match, nothing to do.")%string;
                 Unlock key])
        else
          match do_upgrade' record code_versions
                  (after w (ext w)
                     [Lock key; Get;
                      Print ("Detected anchore-engine version "
                             ++ py_str version_db_version
                             ++ ", running DB version "
                             ++ py_str running_db_version ++ ".")%string;
                      Print "Performing upgrade."]) with
          | (inl e, w1) => (inl e, after w1 (ext w1) [Unlock key])
          | (inr _, w1) =>
              (inr (VBool true),
               mkWorld (ext w1) (Rows code_versions)
                 (trace w1 ++ [Add version_version version_db_version;
                               Print "Upgrade success: True";
                               Unlock key]))
          end
    end.
Proof.
  destruct w as [x tbl tr]. simpl anchore.
  destruct tbl as [err|record].
  - cbv [run_upgrade upgrade_context db_application_lock get_versions
         db_anchore_get bind attempt emit modify gets raise ret resume
         ext anchore trace after].
    destruct (is_table_not_found err); cbv beta iota;
      rewrite <- !app_assoc; reflexivity.
  - cbv [run_upgrade upgrade_context db_application_lock get_versions
         db_anchore_get bind attempt emit modify gets raise ret resume
         ext anchore trace after print fst snd].
    fold code_versions. rewrite code_versions_db_version.
    cbv zeta.
    destruct (truthy version_db_version); cbv beta iota delta [negb andb];
      [|rewrite <- !app_assoc; reflexivity].
    destruct (bool_decide (dict_get record "db_version" = VNone));
      [cbv beta iota; rewrite <- !app_assoc; reflexivity|].
    destruct (bool_decide (version_db_version = dict_get record "db_version"));
      [cbv beta iota; rewrite <- !app_assoc; reflexivity|].
    cbv beta iota. rewrite <- !app_assoc. simpl app.
    case_do_upgrade Hdo.
    + reflexivity.
    + apply do_upgrade_shape in Hdo as (x1 & t1 & -> & _ & Hrc).
      rewrite (Hrc rc eq_refl). cbv beta iota delta [truthy].
      erewrite do_upgrade_success_writes by reflexivity.
      unfold after. simpl. rewrite <- !app_assoc. reflexivity.
Qed.

(** *** A target above every step *)




(** Every run takes the lock, reads the version table and releases the
    lock last; in between it either writes nothing, or walks the table
    without a failure and then writes the versions of the code. *)
Lemma run_upgrade_cases (w : W) r w' :
  run_upgrade' w = (r, w') ->
  exists x mid,
    (w' = after w x ([Lock key; Get] ++ mid ++ [Unlock key])
     /\ ((r = inr VNone /\ quiet mid /\ x = ext w)
         \/ exists e, r = inl e /\ walk_outcome log (inl e : exn + pyval) mid))
    \/
    (w' = mkWorld x (Rows code_versions)
           (trace w ++ [Lock key; Get] ++ mid
            ++ [Add version_version version_db_version;
                Print "Upgrade success: True"; Unlock key])
     /\ r = inr (VBool true) /\ quiet mid).
Proof.
  rewrite run_upgrade_paths.
  destruct (anchore w) as [err|record] eqn:Htbl.
  { intros [= <- <-]. exists (ext w), []. left. split; [reflexivity|].
    right. eexists. split; [reflexivity|]. now left. }
  cbv zeta.
  destruct (negb (truthy version_db_version)).
  { intros [= <- <-]. exists (ext w), []. left. split; [reflexivity|].
    right. eexists. split; [reflexivity|]. now left. }
  destruct (bool_decide (dict_get record "db_version" = VNone)).
  { intros [= <- <-]. eexists (ext w), [_]. left. split; [reflexivity|].
    left. now repeat split. }
  destruct (bool_decide (version_db_version = dict_get record "db_version")).
  { intros [= <- <-]. eexists (ext w), [_]. left. split; [reflexivity|].
    left. now repeat split. }
  case_do_upgrade Hdo;
    apply do_upgrade_shape in Hdo as (x1 & t1 & -> & Ht1 & _);
    intros [= <- <-].
  - eexists x1, ([_; _] ++ t1). left. split.
    + rewrite !after_after. simpl. rewrite <- ?app_assoc. reflexivity.
    + right. exists e. split; trivial.
      apply (walk_outcome_app _ tt [_; _] t1); trivial. reflexivity.
  - eexists x1, ([_; _] ++ t1). right. split; [|split; trivial].
    + unfold after. simpl. rewrite <- ?app_assoc. reflexivity.
    + apply (quiet_app [_; _]); trivial. reflexivity.
Qed.

(** ** The claims about the upgrade runner *)

(** C3.  For any two version strings that parse, the running one strictly
    above the one of the code, [do_upgrade] raises
    [Exception("DB downgrade not supported")] and leaves the world as it
    found it: no migration function has run, nothing was written, nothing
    was printed. *)
Theorem do_upgrade_rejects_downgrade inplace incode a c (w : W) :
  inplace !! "db_version"%string = Some (VStr a) ->
  incode !! "db_version"%string = Some (VStr c) ->
  vltb c a = true ->
  do_upgrade' inplace incode w
  = (inl (Exception "DB downgrade not supported"), w).
Proof.
  intros Ha Hc Hlt.
  apply vltb_spec in Hlt as (y & x & Hy & Hx & Hyx).
  unfold do_upgrade.
  unfold bind at 1. rewrite getitem_pure, Ha.
  unfold bind at 1. rewrite (StrictVersion_new_parsed _ _ _ Hx).
  unfold bind at 1. rewrite getitem_pure, Hc.
  unfold bind at 1. rewrite (StrictVersion_new_parsed _ _ _ Hy).
  unfold bind at 1, StrictVersion_compare at 1, ret at 1.
  unfold StrictVersion.gt.
  rewrite (cmp_antisym (f := StrictVersion.cmp) y x), Hyx. reflexivity.
Qed.

(** C4 (what the code does).  When the version the code declares is the
    one the database records, [run_upgrade] takes the lock, reads the
    record, prints that there is nothing to do and releases the lock; no
    migration function runs and the record is not written.  It then falls
    off the end of the function: the value returned is [None], not the
    [False] of its docstring. *)
Theorem run_upgrade_same_version_returns_none record (w : W) :
  anchore w = Rows record ->
  truthy version_db_version = true ->
  dict_get record "db_version" = version_db_version ->
  run_upgrade' w
  = (inr VNone,
     after w (ext w)
       [Lock key; Get;
        Print ("Detected anchore-engine version " ++ py_str version_db_version
               ++ " and running DB version " ++ py_str version_db_version
               ++ " match, nothing to do.")%string;
        Unlock key]).
Proof.
  intros Htbl Htruthy Hsame.
  rewrite run_upgrade_paths, Htbl. cbv zeta.
  rewrite Hsame, Htruthy. cbv beta iota delta [negb].
  rewrite bool_decide_eq_false_2.
  2:{ intros E. rewrite E in Htruthy. discriminate. }
  now rewrite bool_decide_eq_true_2.
Qed.

(** C6 (amended).  When the version table is missing, that is, reading it
    raises an error that [is_table_not_found] recognises, [run_upgrade]
    does not return: it raises [TableNotFoundError("anchore table not
    found")] to its caller, after releasing the lock, having run no
    migration function and written no version record. *)
Theorem run_upgrade_raises_table_not_found err (w : W) :
  anchore w = Unreadable err ->
  is_table_not_found err = true ->
  run_upgrade' w
  = (inl (TableNotFoundError "anchore table not found"),
     after w (ext w) [Lock key; Get; Unlock key]).
Proof.
  intros Htbl Hmissing.
  now rewrite run_upgrade_paths, Htbl, Hmissing.
Qed.

(** C7 (amended).  When the code declares no [db_version] (it is [None] or
    empty) and the version table can be read, [run_upgrade] raises the
    configuration error; it does so inside the [with] block, so the
    advisory lock has been taken and the table read by then, and the lock
    is released on the way out.  No migration function runs and nothing is
    written. *)
Theorem run_upgrade_undeclared_version_fails_under_lock record (w : W) :
  anchore w = Rows record ->
  truthy version_db_version = false ->
  run_upgrade' w
  = (inl (Exception
            ("cannot code version (code_db_version="
             ++ py_str version_db_version ++ " running_db_version="
             ++ py_str (dict_get record "db_version") ++ ")")%string),
     after w (ext w) [Lock key; Get; Unlock key]).
Proof.
  intros Htbl Hfalsy.
  now rewrite run_upgrade_paths, Htbl, Hfalsy.
Qed.

(** C1 (amended).  Take a step table declared in ascending order whose
    functions all succeed, and versions [a < c] that are aligned with it:
    no step has [a] strictly inside its range, and [c] is the [db_to] of a
    step.  Then [do_upgrade] from [a] to [c] returns [True] after entering
    exactly the steps whose range lies within [a, c), in the order of the
    table, and calling their functions in order; the rest of the database
    is then what the bodies of exactly these functions, applied one after
    the other in that order, make of it; no step entered ends at or below
    [a], none starts at or above [c]. *)
Theorem do_upgrade_runs_steps_within inplace incode a c sv sv' (w : W) :
  inplace !! "db_version"%string = Some (VStr a) ->
  incode !! "db_version"%string = Some (VStr c) ->
  inplace !! "service_version"%string = Some sv ->
  incode !! "service_version"%string = Some sv' ->
  ascending table = true ->
  all_succeed table ->
  vltb a c = true ->
  forallb (clear_of a) table = true ->
  existsb (fun s => veqb (db_to s) c) table = true ->
  exists t,
    do_upgrade' inplace incode w
    = (inr (VBool true),
       after w (run_bodies (functions_of (List.filter (within a c) table))
                  (ext w)) t)
    /\ steps_of t = map fst (List.filter (within a c) table)
    /\ calls_of t = names_of (List.filter (within a c) table)
    /\ Forall (fun s => vleb (snd s) a = false /\ vleb c (fst s) = false)
              (steps_of t).
Proof.
  intros Ha Hc Hsv Hsv' Hasc Hall Hlt Hclear Hend.
  rewrite (do_upgrade_upward _ _ _ _ _ _ _ Ha Hc Hsv Hsv' Hlt).
  destruct (upgrade_loop_within table Hall Hasc a c
              (after w (ext w)
                 [Print ("Upgrading DB: from=" ++ a ++ " to=" ++ c)%string])
              (vltb_vleb _ _ Hlt) Hclear (fun _ => Hend))
    as (cur' & t & -> & Hsteps & Hcalls & _).
  simpl ext.
  assert (Hrange : Forall (fun s => vleb (snd s) a = false /\ vleb c (fst s) = false)
                     (map fst (List.filter (within a c) table))).
  { apply Forall_forall. intros p Hp. apply list_elem_of_In in Hp.
    apply in_map_iff in Hp as (s & <- & Hs).
    apply filter_In in Hs as [Hs Hin].
    unfold within in Hin. apply andb_prop in Hin as [Hfrom Hto].
    pose proof (ascending_up _ _ Hasc Hs) as Hup.
    unfold db_from, db_to in *. split.
    - apply vltb_not_vleb. eapply vleb_vltb_trans; eauto.
    - apply vltb_not_vleb. eapply vltb_vleb_trans; eauto. }
  destruct (decide (sv <> sv')).
  - rewrite !after_after. eexists. split; [reflexivity|].
    rewrite !steps_of_app, !calls_of_app. simpl.
    now rewrite !app_nil_r, Hsteps, Hcalls.
  - rewrite !after_after. eexists. split; [reflexivity|].
    rewrite !steps_of_app, !calls_of_app. simpl.
    now rewrite Hsteps, Hcalls.
Qed.


Lemma failure_in_walk {A} (r : exn + A) t name e :
  walk_outcome log r t -> In (LogException name e) t ->
  r = inl (handler_raises log e)
  /\ exists t0, t = t0 ++ [Call name; LogException name e] /\ quiet t0.
Proof.
  intros Hwalk Hin. destruct r as [e'|v]; simpl in Hwalk.
  - destruct Hwalk as [Hq | (t0 & n & e0 & -> & Hq & ->)].
    + now apply quiet_not_logged in Hin.
    + apply in_app_or in Hin as [Hin|Hin].
      * now apply quiet_not_logged in Hin.
      * destruct Hin as [Hin|[Hin|[]]]; [discriminate|].
        injection Hin as -> ->. eauto.
  - now apply quiet_not_logged in Hin.
Qed.

(** The functions of a step up to the first that raises: the ones after it
    are not called. *)
Lemma run_functions_stops_at_failure pre fn post (w w1 : W) e x :
  run_functions' pre w = (inr tt, w1) ->
  fn_body fn (ext w1) = (Some e, x) ->
  run_functions' (pre ++ fn :: post) w
  = (inl (handler_raises log e),
     after w1 x [Call (fn_name fn); LogException (fn_name fn) e]).
Proof.
  revert w. induction pre as [|fn0 pre IH]; intros w Hpre Hfn.
  - injection Hpre as <-. simpl app. now rewrite run_functions_cons, Hfn.
  - simpl app. rewrite run_functions_cons in *.
    destruct (fn_body fn0 (ext w)) as [[e0|] x0]; [|now apply IH].
    destruct log; discriminate.
Qed.

(** C2 (what the code does).  When the function at some index of a step
    raises [e], the functions after it in the step are not called.  And in
    any run of [run_upgrade] in which a migration function raises [e], the
    run ends there: the call that raised is the last one, so neither the
    later functions of its step nor any later step run; only the release
    of the lock follows; and the version record is not written
    ([db_anchore.add] is not called).  What reaches the caller is what the
    handler of lines 143-145 raises.  That is [e] itself only when [log] is
    the logger of the standard library; with [log] bound to the module
    [twisted.python.log], as lines 12-15 bind it whenever the imports
    succeed, [log.exception] raises [AttributeError] before [raise e] is
    reached, and that error is what the caller gets in the place of [e]. *)
Theorem failed_function_halts_upgrade :
  (forall pre fn post (w w1 : W) e x,
     run_functions' pre w = (inr tt, w1) ->
     fn_body fn (ext w1) = (Some e, x) ->
     run_functions' (pre ++ fn :: post) w
     = (inl (handler_raises log e),
        after w1 x [Call (fn_name fn); LogException (fn_name fn) e]))
  /\ (forall (w : W) r w' t name e,
        run_upgrade' w = (r, w') ->
        trace w' = trace w ++ t ->
        In (LogException name e) t ->
        (match log with
         | StdlibLogger => r = inl e
         | TwistedLog =>
             r = inl (AttributeError
                        "'module' object has no attribute 'exception'")
         end)
        /\ anchore w' = anchore w
        /\ exists t0,
             t = t0 ++ [Call name; LogException name e; Unlock key]
             /\ failures_of t0 = [] /\ adds_of t0 = []).
Proof.
  split; [exact run_functions_stops_at_failure|].
  intros w r w' t name e Hrun Htrace Hin.
  apply run_upgrade_cases in Hrun as (x & mid & [[-> Hcase] | (-> & -> & Hq)]);
    simpl in Htrace; apply app_inv_head in Htrace; subst t.
  - assert (Hmid : In (LogException name e) mid).
    { destruct Hin as [Hin|[Hin|Hin]]; try discriminate.
      apply in_app_or in Hin as [Hin|[Hin|[]]]; trivial. discriminate. }
    destruct Hcase as [(_ & Hq & _) | (e' & -> & Hwalk)].
    { now apply quiet_not_logged in Hmid. }
    destruct (failure_in_walk _ _ _ _ Hwalk Hmid) as ([= ->] & t0 & -> & Hq).
    split; [now destruct log|]. split; [reflexivity|].
    exists ([Lock key; Get] ++ t0). split.
    + simpl. now rewrite <- !app_assoc.
    + rewrite failures_of_app, adds_of_app. simpl.
      now rewrite quiet_no_failures, quiet_no_adds.
  - exfalso. destruct Hin as [Hin|[Hin|Hin]]; try discriminate.
    apply in_app_or in Hin as [Hin|Hin].
    + now apply quiet_not_logged in Hin.
    + simpl in Hin. intuition discriminate.
Qed.

(** C8.  In every run of [run_upgrade] the version record is written at
    most once.  Either nothing is written and the record is as before; or
    there is exactly one write, it comes after every step entered and every
    function called, none of which failed, it is followed only by a print
    and the release of the lock, it writes the service version and the db
    version of the code together, and the record afterwards is exactly the
    versions of the code. *)
Theorem version_record_written_once (w : W) :
  exists t,
    trace (snd (run_upgrade' w)) = trace w ++ t
    /\ ((adds_of t = [] /\ anchore (snd (run_upgrade' w)) = anchore w)
        \/ exists t0,
             t = t0 ++ [Add version_version version_db_version;
                        Print "Upgrade success: True"; Unlock key]
             /\ adds_of t0 = [] /\ failures_of t0 = []
             /\ fst (run_upgrade' w) = inr (VBool true)
             /\ anchore (snd (run_upgrade' w)) = Rows code_versions).
Proof.
  destruct (run_upgrade' w) as [r w'] eqn:Hrun. simpl.
  apply run_upgrade_cases in Hrun as (x & mid & [[-> Hcase] | (-> & -> & Hq)]).
  - eexists. split; [reflexivity|]. left. split; [|reflexivity].
    rewrite !adds_of_app. simpl. rewrite app_nil_r.
    destruct Hcase
      as [(_ & Hq & _) | (e & _ & [Hq | (t0 & n & e0 & -> & Hq & _)])].
    + now apply quiet_no_adds.
    + now apply quiet_no_adds.
    + rewrite adds_of_app. simpl. rewrite app_nil_r. now apply quiet_no_adds.
  - eexists. split; [reflexivity|]. right.
    exists ([Lock key; Get] ++ mid). split; [now rewrite <- app_assoc|].
    rewrite adds_of_app, failures_of_app. simpl.
    now rewrite quiet_no_adds, quiet_no_failures.
Qed.

Lemma get_versions_fails err (w : W) :
  anchore w = Unreadable err ->
  fst (get_versions is_table_not_found version_version version_db_version w)
  = inl (if is_table_not_found err
         then TableNotFoundError "anchore table not found"
         else Exception
                ("Cannot find existing/populated anchore DB tables in connected database - has anchore-engine initialized this DB?

DB - exception: " ++ exn_str err)%string).
Proof.
  intros Htbl.
  cbv [get_versions db_anchore_get bind attempt emit modify gets raise ret
       ext anchore trace].
  fold (anchore w). rewrite Htbl.
  now destruct (is_table_not_found err).
Qed.

(** C9.  Whenever [do_upgrade] returns, it returns [True].  Hence in
    [run_upgrade] the branch raising "Upgrade routine from module returned
    false" is never taken: an exception leaving [run_upgrade] is one raised
    by [get_versions], the configuration error, or one raised by
    [do_upgrade]; and a run that returns either did nothing ([None], the
    database untouched) or wrote the versions of the code and returned
    [True]. *)
Theorem upgrade_false_branch_unreachable (w : W) :
  (forall inplace incode (w1 : W),
     match do_upgrade' inplace incode w1 with
     | (inr v, _) => v = VBool true
     | (inl _, _) => True
     end)
  /\ match run_upgrade' w with
     | (inl e, _) =>
         fst (get_versions is_table_not_found version_version
                version_db_version (after w (ext w) [Lock key])) = inl e
         \/ (exists running,
               e = Exception
                     ("cannot code version (code_db_version="
                      ++ py_str version_db_version ++ " running_db_version="
                      ++ py_str running ++ ")")%string)
         \/ (exists record w1,
               fst (do_upgrade' record code_versions w1) = inl e)
     | (inr v, w') =>
         (v = VNone /\ ext w' = ext w /\ anchore w' = anchore w)
         \/ (v = VBool true /\ anchore w' = Rows code_versions
             /\ exists t, trace w' = trace w ++ t
                          /\ adds_of t = [(version_version, version_db_version)])
     end.
Proof.
  split.
  { intros inplace incode w1.
    destruct (do_upgrade' inplace incode w1) as [[e|v] w2] eqn:Hdo; trivial.
    apply do_upgrade_shape in Hdo as (_ & _ & _ & _ & Hv). now apply Hv. }
  rewrite run_upgrade_paths.
  destruct (anchore w) as [err|record] eqn:Htbl.
  { left. now rewrite (get_versions_fails err). }
  cbv zeta.
  destruct (negb (truthy version_db_version)).
  { right. left. eauto. }
  destruct (bool_decide (dict_get record "db_version" = VNone)).
  { left. now repeat split. }
  destruct (bool_decide (version_db_version = dict_get record "db_version")).
  { left. now repeat split. }
  case_do_upgrade Hdo.
  - right. right. eexists _, _. now rewrite Hdo.
  - apply do_upgrade_shape in Hdo as (x1 & t1 & -> & Hq & _).
    right. split; [reflexivity|]. split; [reflexivity|].
    eexists. split.
    + unfold after. simpl. rewrite <- !app_assoc. reflexivity.
    + rewrite !adds_of_app. simpl in Hq. now rewrite (quiet_no_adds t1).
Qed.

End UpgradeFacts.

(** ** The claims on concrete runs *)

Section UpgradeRuns.
Import Upgrade.

Local Abbreviation run := (run_upgrade TwistedLog sample_is_table_not_found (VStr "1.0.0")).

(** The scenario of the specification: from 0.0.3 to 0.0.5 the last two of
    four steps run, in order, and the record ends at 0.0.5. *)
Example run_upgrade_003_to_005 :
  let w := sample_world (Rows (sample_record "1.0.0" "0.0.3")) in
  let out := run (VStr "0.0.5") sample_table w in
  fst out = inr (VBool true)
  /\ ext (snd out) = ["003_004"; "004_005"]
  /\ steps_of (trace (snd out)) = [("0.0.3", "0.0.4"); ("0.0.4", "0.0.5")]
  /\ anchore (snd out) = Rows (sample_record "1.0.0" "0.0.5").
Proof. vm_compute. repeat split. Qed.

(** A witness of C1: the table of the source, from 0.0.3 to 0.0.5. *)
Lemma do_upgrade_runs_steps_within_witness :
  let w := sample_world (Rows (sample_record "1.0.0" "0.0.3")) in
  exists t,
    do_upgrade TwistedLog sample_table (sample_record "1.0.0" "0.0.3")
      (sample_record "1.0.0" "0.0.5") w
    = (inr (VBool true), after w ["003_004"; "004_005"] t)
    /\ steps_of t = map fst (List.filter (within "0.0.3" "0.0.5") sample_table)
    /\ calls_of t = names_of (List.filter (within "0.0.3" "0.0.5") sample_table)
    /\ Forall (fun s => vleb (snd s) "0.0.3" = false
                        /\ vleb "0.0.5" (fst s) = false)
              (steps_of t).
Proof.
  apply (do_upgrade_runs_steps_within TwistedLog sample_table _ _ "0.0.3" "0.0.5"
           (VStr "1.0.0") (VStr "1.0.0"));
    try (vm_compute; reflexivity).
  repeat constructor.
Defined.

(** Against C1 as stated: on the table of the source, from 0.0.0 to 0.0.1,
    with [0.0.0 < 0.0.1], the runner enters the step from 0.0.1 to 0.0.2,
    whose range starts at the target and so does not lie within
    [0.0.0, 0.0.1); no step of the table does. *)
Lemma do_upgrade_runs_step_starting_at_target :
  let w := sample_world (Rows (sample_record "1.0.0" "0.0.0")) in
  let out := do_upgrade TwistedLog sample_table (sample_record "1.0.0" "0.0.0")
               (sample_record "1.0.0" "0.0.1") w in
  ascending sample_table = true
  /\ vltb "0.0.0" "0.0.1" = true
  /\ fst out = inr (VBool true)
  /\ steps_of (trace (snd out)) = [("0.0.1", "0.0.2")]
  /\ calls_of (trace (snd out)) = ["db_upgrade_001_002"]
  /\ vleb "0.0.1" "0.0.1" = true
  /\ List.filter (within "0.0.0" "0.0.1") sample_table = [].
Proof. vm_compute. repeat split. Qed.

(** A witness of C2: the second step has two functions and the first one
    raises, with [log] the module [twisted.python.log]; the caller gets
    the [AttributeError] and not the error of the function. *)
Lemma failed_function_halts_upgrade_witness :
  let w := sample_world (Rows (sample_record "1.0.0" "0.0.1")) in
  let out := run (VStr "0.0.4") sample_failing_table w in
  let e := DriverError "OperationalError" "column size is in use" in
  fst out = inl (AttributeError "'module' object has no attribute 'exception'")
  /\ anchore (snd out) = anchore w
  /\ exists t0,
       trace (snd out)
       = t0 ++ [Call "db_upgrade_002_003"; LogException "db_upgrade_002_003" e;
                Unlock (upgrade_lock_namespace, my_module_upgrade_id)]
       /\ failures_of t0 = [] /\ adds_of t0 = [].
Proof.
  cbv zeta.
  apply (proj2 (failed_function_halts_upgrade TwistedLog sample_is_table_not_found
                  (VStr "1.0.0") (VStr "0.0.4") sample_failing_table)
           (sample_world (Rows (sample_record "1.0.0" "0.0.1")))).
  - apply surjective_pairing.
  - reflexivity.
  - vm_compute. tauto.
Defined.

(** A witness of C3: the scenario of the specification, 0.0.6 running and
    0.0.5 in the code. *)
Lemma do_upgrade_rejects_downgrade_witness :
  let w := sample_world (Rows (sample_record "1.0.0" "0.0.6")) in
  do_upgrade TwistedLog sample_table (sample_record "1.0.0" "0.0.6")
    (sample_record "1.0.0" "0.0.5") w
  = (inl (Exception "DB downgrade not supported"), w).
Proof.
  apply (do_upgrade_rejects_downgrade TwistedLog sample_table _ _ "0.0.6" "0.0.5");
    vm_compute; reflexivity.
Defined.

(** A witness of C4: both versions are 0.0.6; the value is [None]. *)
Lemma run_upgrade_same_version_returns_none_witness :
  let w := sample_world (Rows (sample_record "1.0.0" "0.0.6")) in
  run (VStr "0.0.6") sample_table w
  = (inr VNone,
     after w (ext w)
       [Lock (1, 1)%Z; Get;
        Print "Detected anchore-engine version 0.0.6 and running DB version 0.0.6 match, nothing to do.";
        Unlock (1, 1)%Z]).
Proof.
  apply (run_upgrade_same_version_returns_none TwistedLog sample_is_table_not_found
           (VStr "1.0.0") (VStr "0.0.6") sample_table
           (sample_record "1.0.0" "0.0.6"));
    vm_compute; reflexivity.
Defined.


(** C5 on the same run, evaluated: the walk stops at 0.0.6 and 0.0.9 is
    recorded. *)
Example run_upgrade_003_to_009 :
  let w := sample_world (Rows (sample_record "1.0.0" "0.0.3")) in
  let out := run (VStr "0.0.9") sample_table w in
  fst out = inr (VBool true)
  /\ reached "0.0.3" (steps_of (trace (snd out))) = "0.0.6"
  /\ anchore (snd out) = Rows (sample_record "1.0.0" "0.0.9").
Proof. vm_compute. repeat split. Qed.

(** Against C6 as stated: with the version table missing, [run_upgrade]
    does not return; it raises [TableNotFoundError]. *)
Lemma run_upgrade_missing_table_raises :
  sample_is_table_not_found
    (DriverError "ProgrammingError" "relation anchore does not exist") = true
  /\ fst (run (VStr "0.0.6") sample_table (sample_world sample_missing_table))
     = inl (TableNotFoundError "anchore table not found").
Proof. vm_compute. split; reflexivity. Qed.

(** A witness of C6 (amended). *)
Lemma run_upgrade_raises_table_not_found_witness :
  let w := sample_world sample_missing_table in
  run (VStr "0.0.6") sample_table w
  = (inl (TableNotFoundError "anchore table not found"),
     after w (ext w) [Lock (1, 1)%Z; Get; Unlock (1, 1)%Z]).
Proof.
  apply (run_upgrade_raises_table_not_found TwistedLog sample_is_table_not_found
           (VStr "1.0.0") (VStr "0.0.6") sample_table
           (DriverError "ProgrammingError" "relation anchore does not exist"));
    reflexivity.
Defined.

(** Against C7 as stated: with no [db_version] declared by the code, the
    configuration error is raised after the advisory lock was taken and
    the version table read. *)
Lemma run_upgrade_undeclared_version_takes_lock :
  let w := sample_world (Rows (sample_record "1.0.0" "0.0.6")) in
  let out := run VNone sample_table w in
  fst out
  = inl (Exception "cannot code version (code_db_version=None running_db_version=0.0.6)")
  /\ trace (snd out) = [Lock (1, 1)%Z; Get; Unlock (1, 1)%Z].
Proof. vm_compute. split; reflexivity. Qed.

(** A witness of C7 (amended). *)
Lemma run_upgrade_undeclared_version_fails_under_lock_witness :
  let w := sample_world (Rows (sample_record "1.0.0" "0.0.6")) in
  run VNone sample_table w
  = (inl (Exception "cannot code version (code_db_version=None running_db_version=0.0.6)"),
     after w (ext w) [Lock (1, 1)%Z; Get; Unlock (1, 1)%Z]).
Proof.
  apply (run_upgrade_undeclared_version_fails_under_lock TwistedLog
           sample_is_table_not_found (VStr "1.0.0") VNone sample_table
           (sample_record "1.0.0" "0.0.6"));
    reflexivity.
Defined.

End UpgradeRuns.

(** ** The authorization wrapper *)

Section AuthorizationFacts.
Import Authorization.
Context {Ext Body R : Type}.
Context {handler : AuthorizationHandler Ext}.
Variable make_response_error : string -> Z -> Body.
Variable request_proxy : Request.
Variable permission_s : list (Permission Ext).
Variable f : list pyval -> Kwargs -> M (World Ext) exn R.
Variables (args : list pyval) (kwargs : Kwargs).

Local Abbreviation guarded' := (guarded request_proxy permission_s f args kwargs).
Local Abbreviation requires' :=
  (requires make_response_error request_proxy permission_s f args kwargs).

(** Authentication ends in one way when it fails. *)
Lemma authenticated_raises (w : World Ext) e w' :
  authenticated request_proxy w = (inl e, w') ->
  e = UnauthenticatedError "Authentication Required".
Proof.
  cbv [authenticated bind attempt raise ret].
  destruct (authenticate request_proxy w) as [[e0|[i|]] w1];
    try (intros [= <- <-]; reflexivity).
  destruct (username i) as [[|c u]|]; intros [= <- <-]; reflexivity.
Qed.

Lemma authenticated_fails (w : World Ext) :
  authentication_failed (fst (authenticate request_proxy w)) = true ->
  exists w', authenticated request_proxy w
             = (inl (UnauthenticatedError "Authentication Required"), w').
Proof.
  cbv [authenticated bind attempt raise ret authentication_failed].
  destruct (authenticate request_proxy w) as [[e0|[i|]] w1]; simpl;
    try (intros _; eexists; reflexivity).
  destruct (username i) as [[|c u]|]; try discriminate;
    intros _; eexists; reflexivity.
Qed.

(** The guarded block starts by authenticating, and a failure there is
    what it raises. *)
Lemma guarded_unauthenticated (w : World Ext) e w1 :
  authenticated request_proxy (entered w) = (inl e, w1) ->
  fst (guarded' w) = inl e.
Proof.
  intros H.
  cbv [guarded Yosai_context try_finally bind attempt modify set_identity
       resume raise ret].
  fold (entered w). now rewrite H.
Qed.

(** A value the guarded block returns is one the endpoint returned. *)
Lemma guarded_returns (w : World Ext) r w' :
  guarded' w = (inr r, w') ->
  exists w1 w2, f args kwargs w1 = (inr r, w2).
Proof.
  cbv [guarded Yosai_context try_finally bind attempt modify set_identity
       resume raise ret].
  fold (entered w).
  destruct (authenticated request_proxy (entered w)) as [[e|i] w1];
    [discriminate|].
  match goal with
  | |- context [bind_permissions ?p ?k ?w0] =>
      destruct (bind_permissions p k w0) as [[e|perms] w2]
  end; [discriminate|].
  destruct (authorized i perms w2) as [[e|[]] w3]; [discriminate|].
  destruct (f args kwargs w3) as [[e|r'] w4] eqn:Hf; [discriminate|].
  intros [= <- <-]. eauto.
Qed.

(** C10 (amended).  For every endpoint wrapped by [requires] and every
    call, the wrapper lets no instance of [Exception] reach the caller.
    By what the guarded block does, the wrapper returns the value the
    endpoint returned, or the error body and status 403 with the message of
    the [UnauthorizedError], or 401 for an [UnauthenticatedError], or 500
    (after logging) for any other instance of [Exception]; an exception
    that is not an instance of [Exception], such as [SystemExit] or
    [KeyboardInterrupt], passes through to the caller.  Whatever goes wrong
    while authenticating, exceptions of any kind included, gives 401. *)
Theorem requires_turns_exceptions_into_responses (w : World Ext) :
  match fst (guarded' w), fst (requires' w) with
  | inr r, inr (Returned r') =>
      r' = r /\ exists w1 w2, f args kwargs w1 = (inr r, w2)
  | inl (UnauthorizedError msg _), inr (ErrorResponse body status) =>
      status = 403%Z /\ body = make_response_error msg 403
  | inl (UnauthenticatedError _), inr (ErrorResponse body status) =>
      status = 401%Z /\ body = make_response_error "Unauthorized" 401
  | inl (OtherException _ _), inr (ErrorResponse body status) =>
      status = 500%Z /\ body = make_response_error "Internal error" 500
  | inl (BaseOnly cls), inl e => e = BaseOnly cls
  | _, _ => False
  end
  /\ match fst (requires' w) with
     | inl e => is_Exception e = false
     | inr _ => True
     end
  /\ (authentication_failed (fst (authenticate request_proxy (entered w))) = true ->
      fst (requires' w)
      = inr (ErrorResponse (make_response_error "Unauthorized" 401) 401)).
Proof.
  assert (Hmap :
    requires' w
    = match guarded' w with
      | (inr r, w') => (inr (Returned r), w')
      | (inl (UnauthorizedError msg _), w') =>
          (inr (ErrorResponse (make_response_error msg 403) 403), w')
      | (inl (UnauthenticatedError _), w') =>
          (inr (ErrorResponse (make_response_error "Unauthorized" 401) 401), w')
      | (inl (OtherException _ msg), w') =>
          (inr (ErrorResponse (make_response_error "Internal error" 500) 500),
           mkWorld (ext w') (yosai_stack w') (subject w') (context_identity w')
             (values w') (log w' ++ ["Unexpected exception: " ++ msg]%string))
      | (inl (BaseOnly cls), w') => (inl (BaseOnly cls), w')
      end).
  { unfold requires. unfold bind at 1, attempt at 1.
    destruct (guarded' w) as [[[msg perms|msg|cls msg|cls]|r] w']; reflexivity. }
  split; [|split].
  - rewrite Hmap.
    destruct (guarded' w) as [[[msg perms|msg|cls msg|cls]|r] w'] eqn:Hg;
      simpl; auto.
    split; trivial. eapply guarded_returns; eauto.
  - rewrite Hmap.
    destruct (guarded' w) as [[[msg perms|msg|cls msg|cls]|r] w']; reflexivity.
  - intros Hfail.
    apply authenticated_fails in Hfail as [w1 Hfail].
    apply guarded_unauthenticated in Hfail.
    rewrite Hmap.
    destruct (guarded' w) as [[e|r] w']; simpl in Hfail; [|discriminate].
    now injection Hfail as ->.
Qed.

End AuthorizationFacts.

Section AuthorizationRuns.
Import Authorization.

Local Abbreviation call permission f request :=
  (requires (handler := sample_handler) sample_response_error request
     [permission] f [] ∅ sample_world).

(** The wrapper on calls that are let through, denied, not authenticated,
    and that fail in the endpoint. *)
Example requires_sample_calls :
  fst (call (sample_permission "listImages") sample_endpoint sample_request)
  = inr (Returned "[]")
  /\ fst (call (sample_permission "deleteImage") sample_endpoint sample_request)
     = inr (ErrorResponse
              ("Not authorized. Requires permissions: domain=account1 action=deleteImage target=*",
               403%Z) 403%Z)
  /\ fst (call (sample_permission "listImages") sample_endpoint (mkRequest None))
     = inr (ErrorResponse ("Unauthorized", 401%Z) 401%Z)
  /\ fst (call (sample_permission "listImages") sample_endpoint
            (mkRequest (Some ("admin", "guess"))))
     = inr (ErrorResponse ("Unauthorized", 401%Z) 401%Z)
  /\ fst (call (sample_permission "listImages") sample_failing_endpoint
            sample_request)
     = inr (ErrorResponse ("Internal error", 500%Z) 500%Z).
Proof. vm_compute. repeat split. Qed.

(** Against C10 as stated: an endpoint that raises [SystemExit], called by
    an authenticated and authorized user; the exception reaches the
    caller. *)
Lemma requires_lets_SystemExit_through :
  fst (call (sample_permission "listImages") sample_exiting_endpoint
         sample_request)
  = inl (BaseOnly "SystemExit").
Proof. vm_compute. reflexivity. Qed.

(** A witness of C10 (amended), on a request without credentials. *)
Lemma requires_turns_exceptions_into_responses_witness :
  fst (call (sample_permission "listImages") sample_endpoint (mkRequest None))
  = inr (ErrorResponse (sample_response_error "Unauthorized" 401) 401%Z).
Proof.
  apply (requires_turns_exceptions_into_responses (handler := sample_handler)
           sample_response_error (mkRequest None)
           [sample_permission "listImages"] sample_endpoint [] ∅ sample_world).
  vm_compute. reflexivity.
Defined.

End AuthorizationRuns.

(** * More of the upgrade runner *)

Section UpgradeMore.
Import Upgrade.
Context {Ext : Type}.
Variable log : LogBinding.
Variable is_table_not_found : exn -> bool.
Variable version_version version_db_version : pyval.
Variable table : list (StepEntry Ext).

Local Abbreviation W := (World Ext).
Local Abbreviation run_functions' := (run_functions log).
Local Abbreviation upgrade_loop' := (upgrade_loop log).
Local Abbreviation do_upgrade' := (do_upgrade log table).
Local Abbreviation run_upgrade' :=
  (run_upgrade log is_table_not_found version_version version_db_version table).
Local Abbreviation code_versions := (code_versions_of version_version version_db_version).
Local Abbreviation key := (upgrade_lock_namespace, my_module_upgrade_id).

(** What a run that returned [True] tells about the code and leaves in
    the version table. *)
Lemma run_upgrade_true_inv (w : W) w' :
  run_upgrade' w = (inr (VBool true), w') ->
  truthy version_db_version = true /\ anchore w' = Rows code_versions.
Proof.
  rewrite run_upgrade_paths.
  destruct (anchore w) as [err|record]; [discriminate|]. cbv zeta.
  destruct (truthy version_db_version); cbv beta iota delta [negb];
    [|discriminate].
  destruct (bool_decide (dict_get record "db_version" = VNone)); [discriminate|].
  destruct (bool_decide (version_db_version = dict_get record "db_version"));
    [discriminate|].
  case_do_upgrade Hdo; [discriminate|].
  intros [= <-]. now split.
Qed.

(** X1.  [run_upgrade] is idempotent, as its docstring says: after a run
    that returned [True], the next run finds the version of the code in the
    record, prints that there is nothing to do and returns [None]; it runs
    no migration function and does not write the record again. *)
Theorem run_upgrade_again_is_noop (w : W) w' :
  run_upgrade' w = (inr (VBool true), w') ->
  run_upgrade' w'
  = (inr VNone,
     after w' (ext w')
       [Lock key; Get;
        Print ("Detected anchore-engine version " ++ py_str version_db_version
               ++ " and running DB version " ++ py_str version_db_version
               ++ " match, nothing to do.")%string;
        Unlock key]).
Proof.
  intros Hrun. apply run_upgrade_true_inv in Hrun as [Htruthy Htbl].
  rewrite run_upgrade_paths, Htbl. cbv zeta.
  rewrite code_versions_db_version, Htruthy. cbv beta iota delta [negb].
  rewrite bool_decide_eq_false_2.
  2:{ intros E. rewrite E in Htruthy. discriminate. }
  now rewrite bool_decide_eq_true_2.
Qed.

(** X2.  A database that is connected but holds no version yet (the
    record has no [db_version], or [None]): when the code declares its
    version, [run_upgrade] says so and returns [None], having run no
    migration function and written nothing. *)
Theorem run_upgrade_uninitialized_is_noop record (w : W) :
  anchore w = Rows record ->
  truthy version_db_version = true ->
  dict_get record "db_version" = VNone ->
  run_upgrade' w
  = (inr VNone,
     after w (ext w)
       [Lock key; Get;
        Print "Detected no running db version, indicating db is not initialized but is connected. No upgrade necessary. Exiting normally.";
        Unlock key]).
Proof.
  intros Htbl Htruthy Hnone.
  rewrite run_upgrade_paths, Htbl. cbv zeta.
  rewrite Hnone, Htruthy. cbv beta iota delta [negb].
  now rewrite bool_decide_eq_true_2.
Qed.

(** *** The walk only moves upward *)

Lemma run_functions_no_steps fns (w : W) r w' :
  run_functions' fns w = (r, w') ->
  exists x t, w' = after w x t /\ steps_of t = [].
Proof.
  revert w. induction fns as [|fn fns IH]; intros w.
  - intros [= <- <-]. exists (ext w), []. now rewrite after_nil.
  - rewrite run_functions_cons.
    destruct (fn_body fn (ext w)) as [[e|] x].
    + intros [= <- <-]. eexists _, _. split; reflexivity.
    + intros H. apply IH in H as (x' & t & -> & Ht).
      rewrite after_after. eexists _, _. split; [reflexivity|].
      now rewrite steps_of_app, Ht.
Qed.

Lemma upgrade_loop_upward steps :
  forall cur c (w : W) r w',
    upgrade_loop' steps (VStr cur) (VStr c) w = (r, w') ->
    exists x t,
      w' = after w x t
      /\ sublist (steps_of t) (map fst steps)
      /\ rising cur (steps_of t) = true
      /\ short_of c cur (steps_of t) = true.
Proof.
  unfold StepEntry in *.
  induction steps as [|[[db_from db_to] fns] steps IH]; intros cur c w r w'.
  - intros [= <- <-]. exists (ext w), []. rewrite after_nil.
    repeat split. constructor.
  - assert (Hnone : (exists x t,
      w = after w x t
      /\ sublist (steps_of t) (map fst ((db_from, db_to, fns) :: steps))
      /\ rising cur (steps_of t) = true
      /\ short_of c cur (steps_of t) = true)).
    { exists (ext w), []. rewrite after_nil. repeat split. apply sublist_nil_l. }
    rewrite upgrade_loop_cons.
    unfold bind at 1.
    destruct (StrictVersion_new_pure (VStr cur) w) as [[e|ocur] Hcur];
      rewrite Hcur; [intros [= <- <-]; exact Hnone|].
    unfold bind at 1.
    destruct (StrictVersion_new_pure (VStr c) w) as [[e|oc] Hc];
      rewrite Hc; [intros [= <- <-]; exact Hnone|].
    unfold bind at 1.
    destruct (StrictVersion_compare_pure StrictVersion.ge ocur oc w)
      as [[e|reached] Hge];
      rewrite Hge; [intros [= <- <-]; exact Hnone|].
    destruct reached; [intros [= <- <-]; exact Hnone|].
    apply StrictVersion_compare_inv in Hge as (x & y & -> & -> & Hge).
    pose proof (StrictVersion_new_Some _ _ _ _ Hcur) as Hx.
    pose proof (StrictVersion_new_Some _ _ _ _ Hc) as Hy.
    assert (Hlt : vltb cur c = true).
    { unfold vltb, vcmp. rewrite Hx, Hy. unfold StrictVersion.ge in Hge.
      now destruct (StrictVersion.cmp x y). }
    unfold bind at 1.
    destruct (StrictVersion_new_pure (VStr db_to) w) as [[e|oto] Hto];
      rewrite Hto; [intros [= <- <-]; exact Hnone|].
    unfold bind at 1. rewrite Hcur.
    unfold bind at 1.
    destruct (StrictVersion_compare_pure StrictVersion.le oto (Some x) w)
      as [[e|behind] Hle];
      rewrite Hle; [intros [= <- <-]; exact Hnone|].
    apply StrictVersion_compare_inv in Hle as (z & x' & -> & [= <-] & Hle).
    pose proof (StrictVersion_new_Some _ _ _ _ Hto) as Hz.
    symmetry in Hle.
    destruct behind.
    + intros H. apply IH in H as (x' & t & -> & Hsub & Hrise & Hshort).
      exists x', t. repeat split; trivial. simpl. now apply sublist_cons.
    + assert (Hup : vltb cur db_to = true).
      { unfold vltb, vcmp. rewrite Hx, Hz. unfold StrictVersion.le in Hle.
        rewrite (cmp_antisym (f := StrictVersion.cmp) z x).
        now destruct (StrictVersion.cmp z x). }
      clear Hnone.
      unfold bind at 1. rewrite emit_after. unfold bind at 1.
      destruct (run_functions' fns (after w (ext w) [Step db_from db_to]))
        as [[e|[]] w1] eqn:Hfns;
        apply run_functions_no_steps in Hfns as (x1 & t1 & -> & Ht1);
        rewrite after_after.
      * intros [= <- <-]. eexists _, _. split; [reflexivity|].
        unfold steps_of in *. simpl. rewrite ?flat_map_app, Ht1. simpl.
        rewrite Hup, Hlt. repeat split. apply sublist_skip, sublist_nil_l.
      * intros H. apply IH in H as (x2 & t2 & -> & Hsub & Hrise & Hshort).
        rewrite after_after. eexists _, _. split; [reflexivity|].
        unfold steps_of in *. simpl. rewrite ?flat_map_app, Ht1. simpl.
        rewrite Hup, Hlt, Hrise, Hshort. repeat split. now apply sublist_skip.
Qed.

(** Lines 149-153 of [do_upgrade]: at most a print. *)
Lemma do_upgrade_tail (inplace incode : dict) (w : W) r w' :
  (let* inplace_sv := getitem inplace "service_version" in
   let* incode_sv := getitem incode "service_version" in
   (if decide (inplace_sv <> incode_sv)
    then print ("upgrading service: from=" ++ py_str inplace_sv
                ++ " to=" ++ py_str incode_sv)%string
    else ret tt) >>
   ret (VBool true)) w = (r, w') ->
  exists t, w' = after w (ext w) t /\ steps_of t = [] /\ calls_of t = [].
Proof.
  unfold bind at 1. rewrite getitem_pure.
  destruct (inplace !! "service_version"%string) as [sv|];
    [|intros [= <- <-]; exists []; now rewrite after_nil].
  unfold bind at 1. rewrite getitem_pure.
  destruct (incode !! "service_version"%string) as [sv'|];
    [|intros [= <- <-]; exists []; now rewrite after_nil].
  unfold bind at 1.
  destruct (decide (sv <> sv')).
  - unfold print. rewrite emit_after. intros [= <- <-].
    eexists. repeat split; reflexivity.
  - intros [= <- <-]. exists []. now rewrite after_nil.
Qed.

Lemma do_upgrade_upward_any inplace incode a c (w : W) r w' :
  inplace !! "db_version"%string = Some (VStr a) ->
  incode !! "db_version"%string = Some (VStr c) ->
  do_upgrade' inplace incode w = (r, w') ->
  exists x t,
    w' = after w x t
    /\ sublist (steps_of t) (map fst table)
    /\ rising a (steps_of t) = true
    /\ short_of c a (steps_of t) = true.
Proof.
  intros Ha Hc.
  assert (Hnone : exists x t,
    w = after w x t /\ sublist (steps_of t) (map fst table)
    /\ rising a (steps_of t) = true /\ short_of c a (steps_of t) = true).
  { exists (ext w), []. rewrite after_nil. repeat split. apply sublist_nil_l. }
  unfold do_upgrade.
  unfold bind at 1. rewrite getitem_pure, Ha.
  unfold bind at 1.
  destruct (StrictVersion_new_pure (VStr a) w) as [[e|v_inplace] ->];
    [intros [= <- <-]; exact Hnone|].
  unfold bind at 1. rewrite getitem_pure, Hc.
  unfold bind at 1.
  destruct (StrictVersion_new_pure (VStr c) w) as [[e|v_incode] ->];
    [intros [= <- <-]; exact Hnone|].
  unfold bind at 1.
  destruct (StrictVersion_compare_pure StrictVersion.gt v_inplace v_incode w)
    as [[e|downgrade] ->];
    [intros [= <- <-]; exact Hnone|].
  destruct downgrade; [intros [= <- <-]; exact Hnone|].
  clear Hnone. unfold bind at 1.
  destruct (decide (VStr a <> VStr c)).
  - unfold bind at 1, print. rewrite emit_after.
    change upgrade_enabled with true. cbv beta iota.
    unfold bind at 1.
    match goal with
    | |- context [upgrade_loop' table (VStr a) (VStr c) ?w0] =>
        destruct (upgrade_loop' table (VStr a) (VStr c) w0) as [[e|cur] w1] eqn:Hloop
    end;
      apply upgrade_loop_upward in Hloop as (x1 & t1 & -> & Hsub & Hrise & Hshort);
      rewrite after_after.
    + intros [= <- <-]. eexists _, _. split; [reflexivity|].
      unfold steps_of in *. simpl. auto.
    + unfold ret at 1. intros H.
      apply do_upgrade_tail in H as (t2 & -> & Ht2 & _).
      rewrite after_after. eexists _, _. split; [reflexivity|].
      unfold steps_of in *. simpl. rewrite ?flat_map_app, Ht2, app_nil_r. auto.
  - unfold ret at 1. intros H.
    apply do_upgrade_tail in H as (t2 & -> & Ht2 & _).
    eexists _, _. split; [reflexivity|]. rewrite Ht2.
    repeat split. apply sublist_nil_l.
Qed.

(** X3.  Whatever the table, in whatever order it is declared, and
    whether or not a migration function fails: the steps [do_upgrade]
    enters are taken from the table in the order of the table, none twice;
    each one ends strictly above the version reached before it, the first
    above the running version, so the version never goes down; and each is
    entered while that version is still strictly below the target. *)
Theorem do_upgrade_moves_upward inplace incode a c (w : W) :
  inplace !! "db_version"%string = Some (VStr a) ->
  incode !! "db_version"%string = Some (VStr c) ->
  exists x t,
    snd (do_upgrade' inplace incode w) = after w x t
    /\ sublist (steps_of t) (map fst table)
    /\ rising a (steps_of t) = true
    /\ short_of c a (steps_of t) = true.
Proof.
  intros Ha Hc.
  destruct (do_upgrade' inplace incode w) as [r w'] eqn:Hdo.
  simpl. eapply do_upgrade_upward_any; eauto.
Qed.

(** X4.  [do_upgrade] makes a [StrictVersion] of the running version
    and of the version of the code, in this order, and compares them,
    before anything else.  When one of the two strings is no strict
    version it fails there and the world is as it was: nothing printed,
    no migration function run.  A string that is not empty raises the
    [ValueError] of the constructor, the running one first; the empty
    string makes an object without a version, and then, unless the other
    string raised already, the comparison raises [AttributeError]. *)
Theorem do_upgrade_rejects_malformed_version inplace incode a c (w : W) :
  inplace !! "db_version"%string = Some (VStr a) ->
  incode !! "db_version"%string = Some (VStr c) ->
  StrictVersion.parse a = None \/ StrictVersion.parse c = None ->
  do_upgrade' inplace incode w = (inl (malformed_version_error a c), w).
Proof.
  intros Ha Hc Hbad. unfold do_upgrade, malformed_version_error, no_version.
  unfold bind at 1. rewrite getitem_pure, Ha.
  unfold bind at 1. rewrite StrictVersion_new_str.
  destruct (StrictVersion.parse a) as [x|].
  - destruct Hbad as [Hbad|Hbad]; [discriminate|]. rewrite Hbad.
    rewrite andb_false_r.
    unfold bind at 1. rewrite getitem_pure, Hc.
    unfold bind at 1. rewrite StrictVersion_new_str, Hbad.
    now destruct (String.eqb c EmptyString).
  - rewrite andb_true_r.
    destruct (String.eqb a EmptyString); [|reflexivity].
    cbv beta iota delta [negb].
    unfold bind at 1. rewrite getitem_pure, Hc.
    unfold bind at 1. rewrite StrictVersion_new_str.
    destruct (StrictVersion.parse c) as [y|].
    + rewrite andb_false_r. reflexivity.
    + now destruct (String.eqb c EmptyString).
Qed.

(** *** The same version, written differently *)

Lemma upgrade_loop_at_target steps cur c (w : W) :
  vleb c cur = true ->
  upgrade_loop' steps (VStr cur) (VStr c) w = (inr (VStr cur), w).
Proof.
  unfold StepEntry in *.
  intros Hge. destruct steps as [|[[db_from db_to] fns] steps]; trivial.
  apply vleb_spec in Hge as (y & x & Hy & Hx & Hyx).
  rewrite upgrade_loop_cons.
  unfold bind at 1. rewrite (StrictVersion_new_parsed _ _ _ Hx).
  unfold bind at 1. rewrite (StrictVersion_new_parsed _ _ _ Hy).
  unfold bind at 1, StrictVersion_compare at 1, ret at 1.
  unfold StrictVersion.ge.
  rewrite (cmp_antisym (f := StrictVersion.cmp) y x).
  destruct (StrictVersion.cmp y x); try reflexivity. congruence.
Qed.

(** X5.  The runner tells the versions apart as strings but orders them
    as strict versions.  When the record holds the version of the code in
    another spelling (0.1 for 0.1.0), [run_upgrade] goes through the
    upgrade path: it enters no step and calls no migration function, then
    writes the versions of the code over the record and returns [True]. *)
Theorem run_upgrade_respelled_version record a c sv (w : W) :
  anchore w = Rows record ->
  record !! "db_version"%string = Some (VStr a) ->
  record !! "service_version"%string = Some sv ->
  version_db_version = VStr c ->
  veqb a c = true ->
  a <> c ->
  exists t,
    run_upgrade' w
    = (inr (VBool true), mkWorld (ext w) (Rows code_versions) (trace w ++ t))
    /\ steps_of t = [] /\ calls_of t = []
    /\ adds_of t = [(version_version, VStr c)].
Proof.
  intros Htbl Ha Hsv Hcode Heq Hne.
  assert (Hparse : exists x y, StrictVersion.parse a = Some x
                               /\ StrictVersion.parse c = Some y
                               /\ StrictVersion.cmp x y = Eq).
  { unfold veqb, vcmp in Heq.
    destruct (StrictVersion.parse a) as [x|], (StrictVersion.parse c) as [y|];
      try discriminate.
    exists x, y. repeat split. now destruct (StrictVersion.cmp x y). }
  destruct Hparse as (x & y & Hx & Hy & Hxy).
  assert (Htruthy : truthy version_db_version = true).
  { rewrite Hcode. destruct c; trivial. discriminate. }
  assert (Hrun : dict_get record "db_version" = VStr a).
  { unfold dict_get. now rewrite Ha. }
  assert (Hdo : forall w0 : W, exists t0,
    do_upgrade' record code_versions w0 = (inr (VBool true), after w0 (ext w0) t0)
    /\ steps_of t0 = [] /\ calls_of t0 = [] /\ adds_of t0 = []).
  { intros w0. unfold do_upgrade.
    unfold bind at 1. rewrite getitem_pure, Ha.
    unfold bind at 1. rewrite (StrictVersion_new_parsed _ _ _ Hx).
    unfold bind at 1. rewrite getitem_pure, code_versions_lookup_db, Hcode.
    unfold bind at 1. rewrite (StrictVersion_new_parsed _ _ _ Hy).
    unfold bind at 1, StrictVersion_compare at 1, ret at 1.
    unfold StrictVersion.gt. rewrite Hxy.
    destruct (decide (VStr a <> VStr c)) as [_|Hsame];
      [|exfalso; apply Hsame; congruence].
    change upgrade_enabled with true. cbv beta iota.
    unfold bind at 1. unfold bind at 1. unfold print. rewrite emit_after.
    unfold bind at 1.
    rewrite upgrade_loop_at_target by now apply veqb_vleb_sym.
    unfold ret at 1. unfold ret at 1.
    unfold bind at 1. rewrite getitem_pure, Hsv.
    unfold bind at 1. rewrite getitem_pure, code_versions_lookup_service.
    unfold bind at 1.
    destruct (decide (sv <> version_version)).
    - rewrite emit_after, after_after. unfold ret.
      eexists. split; [reflexivity|]. now repeat split.
    - unfold ret. eexists. split; [reflexivity|]. now repeat split. }
  rewrite run_upgrade_paths, Htbl. cbv zeta.
  rewrite Htruthy. cbv beta iota delta [negb].
  rewrite !Hrun.
  rewrite bool_decide_eq_false_2 by discriminate.
  rewrite bool_decide_eq_false_2 by (rewrite Hcode; congruence).
  match goal with
  | |- context [do_upgrade' record code_versions ?w0] =>
      destruct (Hdo w0) as (t0 & -> & Hsteps & Hcalls & Hadds)
  end.
  unfold after. simpl. rewrite <- !app_assoc. simpl.
  eexists. split; [reflexivity|].
  rewrite ?steps_of_app, ?calls_of_app, ?adds_of_app. simpl.
  rewrite ?steps_of_app, ?calls_of_app, ?adds_of_app, Hsteps, Hcalls, Hadds.
  rewrite Hcode. now repeat split.
Qed.

(** *** Under the lock *)

Lemma quiet_no_locks t : quiet t -> locks_of t = [].
Proof.
  unfold quiet. induction t as [|ev t IH]; simpl; trivial.
  intros H. apply andb_prop in H as [H1 H2].
  destruct ev; try discriminate; simpl; auto.
Qed.

Lemma locks_of_app t1 t2 : locks_of (t1 ++ t2) = locks_of t1 ++ locks_of t2.
Proof. unfold locks_of. apply List.filter_app. Qed.

(** X6.  Everything [run_upgrade] does is done inside the advisory lock,
    on every path: the run takes the lock first, releases it last, and
    neither takes nor releases it in between, where the version table is
    read, the migration functions run and the record is written. *)
Theorem run_upgrade_works_under_lock (w : W) :
  exists x tbl mid,
    snd (run_upgrade' w)
    = mkWorld x tbl (trace w ++ [Lock key] ++ mid ++ [Unlock key])
    /\ locks_of mid = [].
Proof.
  destruct (run_upgrade' w) as [r w'] eqn:Hrun. simpl.
  apply run_upgrade_cases in Hrun as (x & mid & [[-> Hcase] | (-> & -> & Hq)]).
  - exists x, (anchore w), (Get :: mid). split; [reflexivity|].
    simpl. destruct Hcase
      as [(_ & Hq & _) | (e & _ & [Hq | (t0 & n & e0 & -> & Hq & _)])].
    + now apply quiet_no_locks.
    + now apply quiet_no_locks.
    + rewrite locks_of_app, quiet_no_locks by trivial. reflexivity.
  - exists x, (Rows code_versions),
      (Get :: mid ++ [Add version_version version_db_version;
                      Print "Upgrade success: True"]).
    split.
    + simpl. now rewrite <- !app_assoc.
    + simpl. rewrite locks_of_app, quiet_no_locks by trivial. reflexivity.
Qed.

End UpgradeMore.

(** * More of the authorization wrapper *)

(** ** The permission strings of [UnauthorizedError] *)

Section PermissionStrings.
Import Authorization.

Lemma split_on_cons sep s : exists hd tl, split_on sep s = hd :: tl.
Proof.
  induction s as [|c s (hd & tl & IH)]; simpl; [eauto|].
  destruct (Ascii.eqb c sep); [eauto|]. rewrite IH. eauto.
Qed.

(** Splitting what was joined with the separator. *)
Lemma split_on_app sep s1 s2 :
  split_on sep (s1 ++ String sep s2)%string
  = split_on sep s1 ++ split_on sep s2.
Proof.
  induction s1 as [|c s1 IH]; simpl.
  - now rewrite Ascii.eqb_refl.
  - destruct (Ascii.eqb c sep); [now rewrite IH|].
    rewrite IH. destruct (split_on_cons sep s1) as (hd & tl & ->).
    reflexivity.
Qed.

Lemma split_on_colon_free s : has_colon s = false -> split_on ":" s = [s].
Proof.
  induction s as [|c s IH]; simpl; [reflexivity|].
  destruct (Ascii.eqb c ":"); simpl; [discriminate|].
  intros H. now rewrite IH.
Qed.

Lemma split_on_has_colon s :
  has_colon s = true -> exists d a rest, split_on ":" s = d :: a :: rest.
Proof.
  induction s as [|c s IH]; simpl; [discriminate|].
  destruct (Ascii.eqb c ":"); simpl.
  - intros _. destruct (split_on_cons ":" s) as (hd & tl & ->). eauto.
  - intros H. destruct (IH H) as (d & a & rest & ->). eauto.
Qed.

Lemma has_colon_app s1 s2 : has_colon (s1 ++ String ":" s2)%string = true.
Proof.
  induction s1 as [|c s1 IH]; simpl; [reflexivity|].
  rewrite IH. apply orb_true_r.
Qed.

Lemma perm_texts_split perms :
  match perm_texts (map (split_on ":") perms) with
  | Some _ => forallb has_colon perms = true
  | None => forallb has_colon perms = false
  end.
Proof.
  induction perms as [|p perms IH]; simpl; [reflexivity|].
  destruct (has_colon p) eqn:Hp; simpl.
  - destruct (split_on_has_colon p Hp) as (d & a & rest & ->). simpl.
    destruct (perm_texts (map (split_on ":") perms)); exact IH.
  - rewrite (split_on_colon_free p Hp). reflexivity.
Qed.

(** Permissions that all hold a colon make an [UnauthorizedError]. *)
Lemma UnauthorizedError_new_ok perms :
  forallb has_colon perms = true ->
  exists msg, UnauthorizedError_new perms
              = UnauthorizedError msg (map (split_on ":") perms).
Proof.
  intros H. unfold UnauthorizedError_new.
  pose proof (perm_texts_split perms) as Hs.
  destruct (perm_texts (map (split_on ":") perms)); [eauto|congruence].
Qed.

(** X10.  The constructor of [UnauthorizedError] yields the exception,
    holding every permission split at its colons, exactly when every
    permission string holds a colon; given one without, it raises
    [IndexError] instead of the authorization error. *)
Theorem UnauthorizedError_needs_colons (perms : list string) :
  if forallb has_colon perms
  then exists msg, UnauthorizedError_new perms
                   = UnauthorizedError msg (map (split_on ":") perms)
  else UnauthorizedError_new perms
       = OtherException "IndexError" "list index out of range".
Proof.
  destruct (forallb has_colon perms) eqn:H.
  - now apply UnauthorizedError_new_ok.
  - unfold UnauthorizedError_new.
    pose proof (perm_texts_split perms) as Hs.
    destruct (perm_texts (map (split_on ":") perms)); [congruence|reflexivity].
Qed.

Lemma perm_texts_joined (triples : list (string * string * string)) :
  forallb colon_free triples = true ->
  map (split_on ":")
    (map (fun '(d, a, t) => (d ++ ":" ++ a ++ ":" ++ t)%string) triples)
  = map (fun '(d, a, t) => [d; a; t]) triples
  /\ perm_texts (map (fun '(d, a, t) => [d; a; t]) triples)
     = Some (map permission_phrase triples).
Proof.
  induction triples as [|[[d a] t] triples IH]; simpl; [auto|].
  rewrite !andb_true_iff, !negb_true_iff.
  intros [[[Hd Ha] Ht] Hrest].
  destruct (IH Hrest) as [IH1 IH2].
  rewrite IH1, IH2. split; [|reflexivity].
  f_equal.
  change (d ++ ":" ++ a ++ ":" ++ t)%string
    with (d ++ String ":" (a ++ String ":" t))%string.
  now rewrite !split_on_app, !split_on_colon_free.
Qed.

(** X11.  For permissions joined from a domain, an action and a target
    that hold no colon, the [UnauthorizedError] holds the three parts of
    each again, and its message lists them in order, separated by commas,
    as [domain=D action=A target=T]. *)
Theorem UnauthorizedError_tells_permissions
    (triples : list (string * string * string)) :
  forallb colon_free triples = true ->
  UnauthorizedError_new
    (map (fun '(d, a, t) => (d ++ ":" ++ a ++ ":" ++ t)%string) triples)
  = UnauthorizedError
      ("Not authorized. Requires permissions: "
       ++ String.concat "," (map permission_phrase triples))
      (map (fun '(d, a, t) => [d; a; t]) triples).
Proof.
  intros H. destruct (perm_texts_joined triples H) as [H1 H2].
  unfold UnauthorizedError_new. now rewrite H1, H2.
Qed.

End PermissionStrings.

(** ** The wrapper, with any handler *)

Section WrapperFacts.
Import Authorization.
Context {Ext Body R : Type}.
Context {handler : AuthorizationHandler Ext}.
Variable make_response_error : string -> Z -> Body.
Variable request_proxy : Request.
Variable f : list pyval -> Kwargs -> M (World Ext) exn R.
Variable args : list pyval.

Local Abbreviation guarded' ps kwargs := (guarded request_proxy ps f args kwargs).
Local Abbreviation requires' ps kwargs :=
  (requires make_response_error request_proxy ps f args kwargs).

(** The guarded block, step by step. *)
Lemma guarded_run ps kwargs (w : World Ext) :
  guarded' ps kwargs w
  = match authenticated request_proxy (entered w) with
    | (inl e, w1) => (inl e, cleared w1)
    | (inr i, w1) =>
        match bind_permissions ps kwargs (identified i w1) with
        | (inl e, w2) => (inl e, cleared w2)
        | (inr perms, w2) =>
            match authorized i perms w2 with
            | (inl e, w3) => (inl e, cleared w3)
            | (inr _, w3) =>
                match f args kwargs w3 with
                | (inl e, w4) => (inl e, cleared w4)
                | (inr r, w4) =>
                    (inr r, mkWorld (ext w4) 0 None None (values w4) (log w4))
                end
            end
        end
    end.
Proof.
  cbv [guarded Yosai_context try_finally bind attempt modify set_identity
       resume raise ret].
  unfold entered, identified, cleared.
  destruct (authenticated request_proxy _) as [[e|i] w1]; [reflexivity|].
  destruct (bind_permissions ps kwargs _) as [[e|perms] w2]; [reflexivity|].
  destruct (authorized i perms w2) as [[e|[]] w3]; [reflexivity|].
  destruct (f args kwargs w3) as [[e|r] w4]; reflexivity.
Qed.

(** The handlers of [inner_wrapper], on the outcome of the block. *)
Lemma requires_of_guarded ps kwargs (w : World Ext) :
  requires' ps kwargs w
  = match guarded' ps kwargs w with
    | (inr r, w') => (inr (Returned r), w')
    | (inl (UnauthorizedError msg _), w') =>
        (inr (ErrorResponse (make_response_error msg 403) 403), w')
    | (inl (UnauthenticatedError _), w') =>
        (inr (ErrorResponse (make_response_error "Unauthorized" 401) 401), w')
    | (inl (OtherException _ msg), w') =>
        (inr (ErrorResponse (make_response_error "Internal error" 500) 500),
         logged ("Unexpected exception: " ++ msg) w')
    | (inl (BaseOnly cls), w') => (inl (BaseOnly cls), w')
    end.
Proof.
  unfold requires. unfold bind at 1, attempt at 1.
  destruct (guarded' ps kwargs w) as [[[msg perms|msg|cls msg|cls]|r] w'];
    reflexivity.
Qed.

(** X12.  Whatever a call under [requires] does, whether it returns the
    endpoint's result or an error response or lets an exception through,
    the identity of the request context is cleared when it ends. *)
Theorem requires_clears_identity ps kwargs (w : World Ext) :
  context_identity (snd (requires' ps kwargs w)) = None.
Proof.
  rewrite requires_of_guarded, guarded_run.
  destruct (authenticated request_proxy _) as [[e|i] w1].
  { destruct e; reflexivity. }
  destruct (bind_permissions ps kwargs _) as [[e|perms] w2].
  { destruct e; reflexivity. }
  destruct (authorized i perms w2) as [[e|[]] w3].
  { destruct e; reflexivity. }
  destruct (f args kwargs w3) as [[e|r] w4]; [destruct e|]; reflexivity.
Qed.

Lemma join_permission_has_colon d a t (w : World Ext) p w' :
  join_permission d a t w = (inr p, w') -> has_colon p = true.
Proof.
  destruct d as [| |d], a as [| |a], t as [| |t]; try discriminate.
  intros [= <- _]. apply has_colon_app.
Qed.

(** Every permission the loop binds holds a colon. *)
Lemma bind_permissions_colons ps kwargs (w : World Ext) perms w' :
  bind_permissions ps kwargs w = (inr perms, w') ->
  forallb has_colon perms = true.
Proof.
  revert w perms w'.
  induction ps as [|perm ps IH]; intros w perms w'; simpl.
  { intros [= <- _]. reflexivity. }
  unfold bind.
  destruct (resolve (domain perm) kwargs w) as [[e|d] w1]; [discriminate|].
  destruct (resolve (action perm) kwargs w1) as [[e|a] w2]; [discriminate|].
  destruct (resolve (target perm) kwargs w2) as [[e|t] w3]; [discriminate|].
  destruct (join_permission d a t w3) as [[e|p] w4] eqn:Hj; [discriminate|].
  destruct (bind_permissions ps kwargs w4) as [[e|rest] w5] eqn:Hrest;
    [discriminate|].
  intros [= <- _]. simpl.
  now rewrite (join_permission_has_colon _ _ _ _ _ _ Hj), (IH _ _ _ Hrest).
Qed.

(** X13.  Once the caller is authenticated and the permissions are bound,
    an authorization that fails with any instance of [Exception], an
    error inside the authorizer included, ends in a 403 response and never
    in a 500: the permissions bound by the wrapper always make a proper
    [UnauthorizedError].  The endpoint is not called: the state is the one
    the authorizer left. *)
Theorem failed_authorization_gets_403 ps kwargs i perms e
    (w w1 w2 w3 : World Ext) :
  authenticated request_proxy (entered w) = (inr i, w1) ->
  bind_permissions ps kwargs (identified i w1) = (inr perms, w2) ->
  authorize i perms w2 = (inl e, w3) ->
  is_Exception e = true ->
  exists msg w',
    requires' ps kwargs w
    = (inr (ErrorResponse (make_response_error msg 403) 403), w')
    /\ ext w' = ext w3
    /\ (exists rp, e = UnauthorizedError msg rp
                   \/ UnauthorizedError_new perms = UnauthorizedError msg rp).
Proof.
  intros Hauth Hbind Hz He.
  rewrite requires_of_guarded, guarded_run, Hauth, Hbind.
  unfold authorized. unfold bind at 1, attempt at 1. rewrite Hz.
  destruct e as [msg rp|msg|cls msg|cls]; try discriminate; simpl.
  - exists msg. eexists. cbv [raise]. eauto.
  - destruct (UnauthorizedError_new_ok perms
                (bind_permissions_colons _ _ _ _ _ Hbind)) as [m Hm].
    cbv [bind logger_exception modify raise]. rewrite Hm.
    exists m. eexists. eauto.
  - destruct (UnauthorizedError_new_ok perms
                (bind_permissions_colons _ _ _ _ _ Hbind)) as [m Hm].
    cbv [bind logger_exception modify raise]. rewrite Hm.
    exists m. eexists. eauto.
Qed.

(** A value the wrapper returns as the endpoint's: what came before. *)
Lemma authorized_returns i perms (w : World Ext) w' :
  authorized i perms w = (inr tt, w') -> authorize i perms w = (inr tt, w').
Proof.
  unfold authorized. unfold bind at 1, attempt at 1.
  destruct (authorize i perms w) as [[e|[]] w1]; [|now intros [= <-]].
  destruct e as [msg rp|msg|cls msg|cls]; simpl;
    cbv [bind logger_exception modify raise]; discriminate.
Qed.

Lemma requires_served ps kwargs (w : World Ext) r w' :
  requires' ps kwargs w = (inr (Returned r), w') ->
  exists i w1 perms w2 w3 w4,
    authenticated request_proxy (entered w) = (inr i, w1)
    /\ bind_permissions ps kwargs (identified i w1) = (inr perms, w2)
    /\ authorize i perms w2 = (inr tt, w3)
    /\ f args kwargs w3 = (inr r, w4).
Proof.
  rewrite requires_of_guarded, guarded_run.
  destruct (authenticated request_proxy _) as [[e|i] w1] eqn:Ha.
  { destruct e; discriminate. }
  destruct (bind_permissions ps kwargs _) as [[e|perms] w2] eqn:Hb.
  { destruct e; discriminate. }
  destruct (authorized i perms w2) as [[e|[]] w3] eqn:Hz.
  { destruct e; discriminate. }
  destruct (f args kwargs w3) as [[e|r'] w4] eqn:Hf.
  { destruct e; discriminate. }
  intros [= <- _]. apply authorized_returns in Hz.
  exists i, w1, perms, w2, w3, w4. auto.
Qed.

(** X14.  Permissions declared without a lazily bound field are bound
    to the same strings on every call, whatever the arguments and the
    state, with [*] for a field that is [None] or empty, and binding them
    changes nothing. *)
Theorem constant_permissions_bind_purely ps texts kwargs (w : World Ext) :
  Forall2 (fun perm text => constant_permission perm = Some text) ps texts ->
  bind_permissions ps kwargs w = (inr texts, w).
Proof.
  induction 1 as [|perm text ps texts Hperm _ IH]; simpl; [reflexivity|].
  unfold constant_permission in Hperm.
  destruct perm as [d a t]; simpl in *.
  destruct d as [|d|d], a as [|a|a], t as [|t|t]; simpl in Hperm;
    try discriminate; injection Hperm as <-;
    cbv [bind resolve ret join_permission]; rewrite IH; reflexivity.
Qed.

(** X15.  A [ParameterBoundValue] is one object shared by the calls of
    the endpoint it was declared with: bound by a call with keyword
    arguments, it gives the value of its parameter in that call, and the
    same value again to a later call without keyword arguments, which
    binds nothing. *)
Theorem parameter_value_outlives_call ref name kwargs (w : World Ext) :
  kwargs <> ∅ ->
  fst (resolve (FLazy (ParameterBoundValue ref name)) kwargs w)
  = inr (dict_get kwargs name)
  /\ resolve (FLazy (ParameterBoundValue ref name)) ∅
       (snd (resolve (FLazy (ParameterBoundValue ref name)) kwargs w))
     = (inr (dict_get kwargs name),
        snd (resolve (FLazy (ParameterBoundValue ref name)) kwargs w)).
Proof.
  intros Hk.
  cbv [resolve bind_value bind value gets set_value modify ret set_ref].
  rewrite (bool_decide_eq_false_2 _ Hk).
  rewrite (bool_decide_eq_true_2 (∅ = ∅) eq_refl).
  cbv [fst snd values dict_get]. rewrite lookup_insert_eq. auto.
Qed.

(** X16.  An endpoint whose permission takes its domain from a parameter
    that the call does not pass, while it passes others, fails with 500:
    the domain is bound to [None], joining the permission raises
    [TypeError], and the endpoint is not called. *)
Theorem unbound_parameter_gets_500 ref name a t sa st rest kwargs i
    (w w1 : World Ext) :
  authenticated request_proxy (entered w) = (inr i, w1) ->
  kwargs <> ∅ ->
  kwargs !! name = None ->
  constant_field a = Some sa ->
  constant_field t = Some st ->
  requires' (mkPermission (FLazy (ParameterBoundValue ref name)) a t :: rest)
    kwargs w
  = (inr (ErrorResponse (make_response_error "Internal error" 500) 500),
     mkWorld (ext w1) (yosai_stack w1) (subject w1) None
       (<[ref := VNone]> (values w1))
       (log w1 ++ ["Unexpected exception: sequence item 0: expected str instance, NoneType found"%string])).
Proof.
  intros Hauth Hk Hname Ha Ht.
  rewrite requires_of_guarded, guarded_run, Hauth.
  cbv [bind_permissions domain action target].
  cbv [resolve bind_value bind value gets set_value modify ret set_ref].
  rewrite (bool_decide_eq_false_2 _ Hk), Hname.
  cbv [identified values default]. rewrite lookup_insert_eq.
  destruct a as [|a|a], t as [|t|t]; try discriminate; reflexivity.
Qed.

End WrapperFacts.

(** ** The wrapper, with the native handler *)

Section DbHandlerFacts.
Import Authorization.
Context {Ext Body R : Type}.
Variable login : string -> string -> M (World Ext) exn unit.
Variable lookup_user : option string -> M (World Ext) exn IdentityContext.
Variable check_permission : list string -> M (World Ext) exn unit.
Variable make_response_error : string -> Z -> Body.
Variable request_proxy : Request.
Variable permission_s : list (Permission Ext).
Variable f : list pyval -> Kwargs -> M (World Ext) exn R.
Variables (args : list pyval) (kwargs : Kwargs).

Local Abbreviation Db := (DbAuthorizationHandler login lookup_user check_permission).
Local Abbreviation requires' :=
  (requires (handler := Db) make_response_error request_proxy permission_s f
     args kwargs).

(** X7.  A request without credentials is never served by an endpoint
    under [requires] of the native handler, whatever permissions it asks
    for, the empty list included: [authenticate] answers with an identity
    without a user name, and the wrapper returns 401 without binding a
    permission, consulting the authorization or calling the endpoint. *)
Theorem anonymous_request_gets_401 (w : World Ext) :
  authorization request_proxy = None ->
  requires' w
  = (inr (ErrorResponse (make_response_error "Unauthorized" 401) 401),
     cleared (entered w)).
Proof.
  intros Hanon.
  cbv [requires guarded Yosai_context try_finally authenticated authenticate
       DbAuthorizationHandler Db_authenticate set_identity
       bind attempt modify resume raise ret cleared entered
       ext yosai_stack subject context_identity values log username].
  rewrite Hanon. reflexivity.
Qed.

(** X8.  When [subject.login] raises, whatever it raises, the wrapper
    returns 401; the endpoint is not called and nothing is logged. *)
Theorem failed_login_gets_401 user password e (w w1 : World Ext) :
  authorization request_proxy = Some (user, password) ->
  login user password (entered w) = (inl e, w1) ->
  requires' w
  = (inr (ErrorResponse (make_response_error "Unauthorized" 401) 401),
     cleared w1).
Proof.
  intros Hauth Hlogin.
  destruct w; cbv [entered ext yosai_stack subject context_identity values log]
    in Hlogin.
  cbv [requires guarded Yosai_context try_finally authenticated authenticate
       DbAuthorizationHandler Db_authenticate set_identity
       bind attempt modify resume raise ret cleared
       ext yosai_stack subject context_identity values log username].
  rewrite Hauth, Hlogin. reflexivity.
Qed.

(** X9.  When the user has logged in but the lookup of the account
    raises, whatever it raises, [authenticate] logs the error and returns
    [None], and the wrapper returns 401 without calling the endpoint. *)
Theorem failed_lookup_gets_401 user password e (w w1 w2 : World Ext) :
  authorization request_proxy = Some (user, password) ->
  login user password (entered w) = (inr tt, w1) ->
  lookup_user (subject w1) w1 = (inl e, w2) ->
  requires' w
  = (inr (ErrorResponse (make_response_error "Unauthorized" 401) 401),
     mkWorld (ext w2) (yosai_stack w2) (subject w2) None (values w2)
       (log w2 ++ ["Error looking up account for authenticated user"%string])).
Proof.
  intros Hauth Hlogin Hlookup.
  destruct w; cbv [entered ext yosai_stack subject context_identity values log]
    in Hlogin.
  destruct w1; cbv [subject] in Hlookup.
  cbv [requires guarded Yosai_context try_finally authenticated authenticate
       DbAuthorizationHandler Db_authenticate set_identity logger_exception
       bind attempt modify gets resume raise ret
       ext yosai_stack subject context_identity values log username].
  rewrite Hauth, Hlogin, Hlookup. reflexivity.
Qed.

(** X17.  With the native handler, a call whose endpoint returned was
    made with credentials, by a user who logged in with them and whose
    account was found with a user name, who is the current subject, and
    whose permissions, as bound for this call, passed [check_permission];
    the endpoint ran in the state that check left. *)
Theorem served_call_was_authorized r (w w' : World Ext) :
  requires' w = (inr (Returned r), w') ->
  exists user password w1 i w2 perms w3 w4 w5,
    authorization request_proxy = Some (user, password)
    /\ login user password (entered w) = (inr tt, w1)
    /\ lookup_user (subject w1) w1 = (inr i, w2)
    /\ (exists c u, username i = Some (String c u))
    /\ bind_permissions permission_s kwargs (identified i w2) = (inr perms, w3)
    /\ subject w3 = username i
    /\ check_permission perms w3 = (inr tt, w4)
    /\ f args kwargs w4 = (inr r, w5).
Proof.
  intros Hrun.
  apply requires_served in Hrun
    as (i & w2 & perms & w3 & w4 & w5 & Hauth & Hbind & Hz & Hf).
  revert Hauth.
  cbv [authenticated authenticate DbAuthorizationHandler Db_authenticate
       bind attempt gets raise ret logger_exception modify].
  destruct (authorization request_proxy) as [[user password]|];
    [|discriminate].
  destruct (login user password (entered w)) as [[e|[]] w1] eqn:Hlogin;
    [discriminate|].
  destruct (lookup_user (subject w1) w1) as [[e|i'] w2'] eqn:Hlookup;
    [discriminate|].
  destruct (username i') as [[|c u]|] eqn:Hname; try discriminate.
  intros [= -> ->].
  revert Hz.
  cbv [authorize DbAuthorizationHandler Db_authorize bind attempt gets raise ret].
  destruct (bool_decide (subject w3 <> username i)) eqn:Hsub; [discriminate|].
  apply bool_decide_eq_false_1 in Hsub.
  destruct (check_permission perms w3) as [[e|[]] w4'] eqn:Hcheck.
  { destruct e as [msg rp|msg|cls msg|cls]; try discriminate.
    destruct (String.eqb cls "ValueError" || String.eqb cls "UnauthorizedException")%bool;
      discriminate. }
  intros [= ->].
  exists user, password, w1, i, w2, perms, w3, w4, w5.
  repeat split; eauto.
  destruct (decide (subject w3 = username i)); [assumption|contradiction].
Qed.

End DbHandlerFacts.

(** ** The configured authorizer *)

Section InitFacts.
Import Authorization.
Context {Y : Type}.
Variable resource_filename : string -> string.
Variable Yosai_new : string -> exn + Y.
Variable disable_sessions : Y -> Y.

Local Abbreviation init_authz_handler' :=
  (init_authz_handler resource_filename Yosai_new disable_sessions).
Local Abbreviation load' := (load resource_filename Yosai_new disable_sessions).

(** X18.  [init_authz_handler] either fails and leaves the configured
    authorizer, and every class attribute, as they were, or installs a
    handler that [get_authorizer] then returns: the native one when the
    configuration names [native] or names nothing, the external one when
    it names [external], never the one for internal services; and the
    [_yosai] that the installed handler's [requires] reads is the one
    loaded from the settings file of its class, with sessions disabled. *)
Theorem init_authz_handler_installs configuration (g : Globals Y) :
  match init_authz_handler' configuration g with
  | (inr _, g') =>
      exists conf h y,
        configuration = Some conf
        /\ get_authorizer g' = (inr (Some h), g')
        /\ self_yosai h g' = Some (disable_sessions y)
        /\ (((dict_get conf "authorization_handler" = VStr "native"
              \/ dict_get conf "authorization_handler" = VNone)
             /\ class h = DbAuthorizationHandler_class
             /\ Yosai_new (resource_filename "conf/default_yosai_settings.yaml")
                = inr y)
            \/ (dict_get conf "authorization_handler" = VStr "external"
                /\ class h = ExternalAuthorizationHandler_class
                /\ Yosai_new
                     (resource_filename "conf/external_authz_yosai_settings.yaml")
                   = inr y))
  | (inl _, g') => g' = g
  end.
Proof.
  destruct configuration as [conf|]; [|reflexivity].
  cbv [init_authz_handler bind].
  set (handler_config := dict_get conf "authorization_handler").
  destruct (bool_decide (handler_config = VStr "native")
            || bool_decide (handler_config = VNone))%bool eqn:Hnative.
  - cbv [ret load class bind Yosai modify].
    destruct (Yosai_new _) as [e|y] eqn:Hy; [reflexivity|].
    exists conf, (mkHandler DbAuthorizationHandler_class None), y.
    do 3 (split; [reflexivity|]). left.
    split; [|split; reflexivity].
    apply orb_true_iff in Hnative as [H|H];
      apply bool_decide_eq_true_1 in H; auto.
  - destruct (bool_decide (handler_config = VStr "external")) eqn:Hext;
      [|reflexivity].
    cbv [ret load class bind Yosai modify].
    destruct (Yosai_new _) as [e|y] eqn:Hy; [reflexivity|].
    exists conf, (mkHandler ExternalAuthorizationHandler_class None), y.
    do 3 (split; [reflexivity|]). right.
    split; [|split; reflexivity].
    now apply bool_decide_eq_true_1 in Hext.
Qed.

(** X19.  [load] of [InternalServiceAuthorizer] stores its [Yosai] in the
    attribute [yosai] of the handler and changes no class attribute, so
    the [_yosai] that the handler's [requires] hands to [Yosai.context]
    is what [DbAuthorizationHandler._yosai] was before the call: [None]
    in a process that has loaded no native handler. *)
Theorem internal_authorizer_leaves_yosai_unset h conf (g : Globals Y) h' g' :
  class h = InternalServiceAuthorizer_class ->
  load' h conf g = (inr h', g') ->
  self_yosai h' g' = Db_yosai g
  /\ g' = g
  /\ exists y, yosai h' = Some y.
Proof.
  intros Hclass. unfold load. rewrite Hclass.
  cbv [bind Yosai ret].
  destruct (Yosai_new _) as [e|y]; [discriminate|].
  intros [= <- <-]. unfold self_yosai. simpl. eauto.
Qed.

End InitFacts.

(** * More runs *)

Section UpgradeMoreRuns.
Import Upgrade.

Local Abbreviation run := (run_upgrade TwistedLog sample_is_table_not_found (VStr "1.0.0")).
Local Abbreviation key := (upgrade_lock_namespace, my_module_upgrade_id).

(** A witness of X1: the upgrade from 0.0.3 to 0.0.5, run twice. *)
Lemma run_upgrade_again_is_noop_witness :
  let w := sample_world (Rows (sample_record "1.0.0" "0.0.3")) in
  let w' := snd (run (VStr "0.0.5") sample_table w) in
  run (VStr "0.0.5") sample_table w'
  = (inr VNone,
     after w' (ext w')
       [Lock key; Get;
        Print "Detected anchore-engine version 0.0.5 and running DB version 0.0.5 match, nothing to do.";
        Unlock key]).
Proof.
  intros w w'.
  apply (run_upgrade_again_is_noop TwistedLog sample_is_table_not_found (VStr "1.0.0")
           (VStr "0.0.5") sample_table w w').
  vm_compute. reflexivity.
Defined.

(** A witness of X2: a record without versions. *)
Lemma run_upgrade_uninitialized_is_noop_witness :
  let w := sample_world (Rows ∅) in
  run (VStr "0.0.5") sample_table w
  = (inr VNone,
     after w (ext w)
       [Lock key; Get;
        Print "Detected no running db version, indicating db is not initialized but is connected. No upgrade necessary. Exiting normally.";
        Unlock key]).
Proof.
  intros w.
  apply (run_upgrade_uninitialized_is_noop TwistedLog sample_is_table_not_found
           (VStr "1.0.0") (VStr "0.0.5") sample_table ∅ w);
    vm_compute; reflexivity.
Defined.

(** A witness of X3: the table with a failing function, from 0.0.1. *)
Lemma do_upgrade_moves_upward_witness :
  let w := sample_world (Rows (sample_record "1.0.0" "0.0.1")) in
  exists x t,
    snd (do_upgrade TwistedLog sample_failing_table (sample_record "1.0.0" "0.0.1")
           (sample_record "1.0.0" "0.0.4") w)
    = after w x t
    /\ sublist (steps_of t) (map fst sample_failing_table)
    /\ rising "0.0.1" (steps_of t) = true
    /\ short_of "0.0.4" "0.0.1" (steps_of t) = true.
Proof.
  intros w.
  apply (do_upgrade_moves_upward TwistedLog sample_failing_table
           (sample_record "1.0.0" "0.0.1") (sample_record "1.0.0" "0.0.4")
           "0.0.1" "0.0.4" w);
    vm_compute; reflexivity.
Defined.

(** A witness of X4: a record whose [db_version] is the empty string. *)
Lemma do_upgrade_rejects_malformed_version_witness :
  let w := sample_world (Rows (sample_record "1.0.0" EmptyString)) in
  do_upgrade TwistedLog sample_table (sample_record "1.0.0" EmptyString)
    (sample_record "1.0.0" "0.0.6") w
  = (inl (AttributeError "StrictVersion instance has no attribute 'version'"),
     w).
Proof.
  intros w.
  apply (do_upgrade_rejects_malformed_version TwistedLog sample_table
           (sample_record "1.0.0" EmptyString) (sample_record "1.0.0" "0.0.6")
           EmptyString "0.0.6" w);
    try (vm_compute; reflexivity).
  left. vm_compute. reflexivity.
Defined.

(** X4 on strings that are not empty: a version of the code with four
    numbers, and a running version that is no version either. *)
Example do_upgrade_malformed_version_runs :
  let w := sample_world (Rows (sample_record "1.0.0" "0.0.5")) in
  do_upgrade TwistedLog sample_table (sample_record "1.0.0" "0.0.5")
    (sample_record "1.0.0" "0.0.6.1") w
  = (inl (ValueError "invalid version number '0.0.6.1'"), w)
  /\ do_upgrade TwistedLog sample_table (sample_record "1.0.0" "five")
       (sample_record "1.0.0" "0.0.6.1") w
     = (inl (ValueError "invalid version number 'five'"), w)
  /\ do_upgrade TwistedLog sample_table (sample_record "1.0.0" EmptyString)
       (sample_record "1.0.0" "0.0.6.1") w
     = (inl (ValueError "invalid version number '0.0.6.1'"), w).
Proof. vm_compute. repeat split. Qed.

(** A witness of X5: the record says 0.1, the code 0.1.0. *)
Lemma run_upgrade_respelled_version_witness :
  let w := sample_world (Rows (sample_record "1.0.0" "0.1")) in
  exists t,
    run (VStr "0.1.0") sample_table w
    = (inr (VBool true),
       mkWorld (ext w) (Rows (code_versions_of (VStr "1.0.0") (VStr "0.1.0")))
         (trace w ++ t))
    /\ steps_of t = [] /\ calls_of t = []
    /\ adds_of t = [(VStr "1.0.0", VStr "0.1.0")].
Proof.
  intros w.
  apply (run_upgrade_respelled_version TwistedLog sample_is_table_not_found
           (VStr "1.0.0") (VStr "0.1.0") sample_table
           (sample_record "1.0.0" "0.1") "0.1" "0.1.0" (VStr "1.0.0") w);
    try (vm_compute; reflexivity).
  discriminate.
Defined.

End UpgradeMoreRuns.

Section AuthorizationMoreRuns.
Import Authorization.

Local Abbreviation call handler request permission kwargs :=
  (requires (handler := handler) sample_response_error request
     [permission] sample_endpoint [] kwargs sample_world).

Local Abbreviation broken_handler :=
  (DbAuthorizationHandler sample_login sample_lookup_user
     sample_broken_check_permission).

(** A witness of X7: a request without credentials. *)
Lemma anonymous_request_gets_401_witness :
  call sample_handler (mkRequest None) (sample_permission "listImages") ∅
  = (inr (ErrorResponse (sample_response_error "Unauthorized" 401) 401%Z),
     cleared (entered sample_world)).
Proof.
  apply (anonymous_request_gets_401 sample_login sample_lookup_user
           sample_check_permission sample_response_error (mkRequest None)
           [sample_permission "listImages"] sample_endpoint [] ∅ sample_world).
  reflexivity.
Defined.

(** A witness of X8: a wrong password. *)
Lemma failed_login_gets_401_witness :
  call sample_handler (mkRequest (Some ("admin", "guess")))
    (sample_permission "listImages") ∅
  = (inr (ErrorResponse (sample_response_error "Unauthorized" 401) 401%Z),
     cleared (entered sample_world)).
Proof.
  apply (failed_login_gets_401 sample_login sample_lookup_user
           sample_check_permission sample_response_error
           (mkRequest (Some ("admin", "guess")))
           [sample_permission "listImages"] sample_endpoint [] ∅
           "admin" "guess"
           (OtherException "IncorrectCredentialsException" "Failed to authenticate")
           sample_world (entered sample_world));
    reflexivity.
Defined.

(** A witness of X9: the account of the user cannot be looked up. *)
Lemma failed_lookup_gets_401_witness :
  requires
    (handler := DbAuthorizationHandler sample_login
                  sample_failing_lookup_user sample_check_permission)
    sample_response_error sample_request
    [sample_permission "listImages"] sample_endpoint [] ∅ sample_world
  = (inr (ErrorResponse (sample_response_error "Unauthorized" 401) 401%Z),
     mkWorld tt 1 (Some "admin") None ∅
       ["Error looking up account for authenticated user"]).
Proof.
  apply (failed_lookup_gets_401 sample_login sample_failing_lookup_user
           sample_check_permission sample_response_error sample_request
           [sample_permission "listImages"] sample_endpoint [] ∅
           "admin" "foobar"
           (OtherException "OperationalError" "connection lost")
           sample_world
           (mkWorld tt 1 (Some "admin") None ∅ [])
           (mkWorld tt 1 (Some "admin") None ∅ []));
    reflexivity.
Defined.

(** A witness of X11: one permission. *)
Lemma UnauthorizedError_tells_permissions_witness :
  UnauthorizedError_new ["account1:listImages:*"]
  = UnauthorizedError
      "Not authorized. Requires permissions: domain=account1 action=listImages target=*"
      [["account1"; "listImages"; "*"]].
Proof.
  apply (UnauthorizedError_tells_permissions [("account1", "listImages", "*")]).
  reflexivity.
Defined.

(** A witness of X13: the permission check breaks down. *)
Lemma failed_authorization_gets_403_witness :
  exists msg w',
    call broken_handler sample_request (sample_permission "listImages") ∅
    = (inr (ErrorResponse (sample_response_error msg 403) 403%Z), w')
    /\ ext w' = tt
    /\ (exists rp,
          OtherException "OperationalError" "connection lost"
          = UnauthorizedError msg rp
          \/ UnauthorizedError_new ["account1:listImages:*"]
             = UnauthorizedError msg rp).
Proof.
  apply (failed_authorization_gets_403 (handler := broken_handler)
           sample_response_error sample_request sample_endpoint []
           [sample_permission "listImages"] ∅
           (mkIdentity (Some "admin") (Some "admin") (Some "admin"))
           ["account1:listImages:*"]
           (OtherException "OperationalError" "connection lost")
           sample_world
           (mkWorld tt 1 (Some "admin") None ∅ [])
           (mkWorld tt 1 (Some "admin")
              (Some (mkIdentity (Some "admin") (Some "admin") (Some "admin")))
              ∅ [])
           (mkWorld tt 1 (Some "admin")
              (Some (mkIdentity (Some "admin") (Some "admin") (Some "admin")))
              ∅ []));
    reflexivity.
Defined.

(** A witness of X14: a permission with a domain, an action and no
    target. *)
Lemma constant_permissions_bind_purely_witness :
  bind_permissions [sample_permission "listImages"] ∅ sample_world
  = (inr ["account1:listImages:*"], sample_world).
Proof.
  apply (constant_permissions_bind_purely
           [sample_permission "listImages"] ["account1:listImages:*"] ∅
           sample_world).
  repeat constructor.
Defined.

(** A witness of X15: a call for [account1], then one without keyword
    arguments. *)
Lemma parameter_value_outlives_call_witness :
  let kwargs : Kwargs := <["account" := VStr "account1"]> ∅ in
  let v : Field unit := FLazy (ParameterBoundValue 0 "account") in
  fst (resolve v kwargs sample_world) = inr (VStr "account1")
  /\ resolve v ∅ (snd (resolve v kwargs sample_world))
     = (inr (VStr "account1"), snd (resolve v kwargs sample_world)).
Proof.
  intros kwargs v.
  apply (parameter_value_outlives_call 0 "account" kwargs sample_world).
  apply insert_non_empty.
Defined.

(** A witness of X16: the call names a tag and no account. *)
Lemma unbound_parameter_gets_500_witness :
  call sample_handler sample_request (sample_account_permission "listImages")
    (<["tag" := VStr "latest"]> ∅)
  = (inr (ErrorResponse (sample_response_error "Internal error" 500) 500%Z),
     mkWorld tt 1 (Some "admin") None (<[0 := VNone]> ∅)
       ["Unexpected exception: sequence item 0: expected str instance, NoneType found"]).
Proof.
  apply (unbound_parameter_gets_500 (handler := sample_handler)
           sample_response_error sample_request sample_endpoint []
           0 "account" (FStr "listImages") FNone "listImages" "*" []
           (<["tag" := VStr "latest"]> ∅)
           (mkIdentity (Some "admin") (Some "admin") (Some "admin"))
           sample_world (mkWorld tt 1 (Some "admin") None ∅ []));
    try reflexivity.
  apply insert_non_empty.
Defined.

(** A witness of X17: a call that is served. *)
Lemma served_call_was_authorized_witness :
  exists user password w1 i w2 perms w3 w4 w5,
    authorization sample_request = Some (user, password)
    /\ sample_login user password (entered sample_world) = (inr tt, w1)
    /\ sample_lookup_user (subject w1) w1 = (inr i, w2)
    /\ (exists c u, username i = Some (String c u))
    /\ bind_permissions [sample_permission "listImages"] ∅ (identified i w2)
       = (inr perms, w3)
    /\ subject w3 = username i
    /\ sample_check_permission perms w3 = (inr tt, w4)
    /\ sample_endpoint [] ∅ w4 = (inr "[]", w5).
Proof.
  apply (served_call_was_authorized sample_login sample_lookup_user
           sample_check_permission sample_response_error sample_request
           [sample_permission "listImages"] sample_endpoint [] ∅ "[]"
           sample_world (mkWorld tt 0 None None ∅ [])).
  reflexivity.
Defined.

(** A witness of X19: the first handler loaded in a process. *)
Lemma internal_authorizer_leaves_yosai_unset_witness :
  let g : Globals string := mkGlobals None None None in
  let h : Handler string := mkHandler InternalServiceAuthorizer_class None in
  let h' : Handler string :=
    mkHandler InternalServiceAuthorizer_class
      (Some "conf/internal_authz_yosai_settings.yaml") in
  self_yosai h' g = None
  /\ g = g
  /\ exists y, yosai h' = Some y.
Proof.
  intros g h h'.
  apply (internal_authorizer_leaves_yosai_unset (fun path => path) inr
           (fun y => y) h ∅ g h' g);
    reflexivity.
Defined.

End AuthorizationMoreRuns.
